(** * Batch submitter: sequencer driver and submission service

    A shallow embedding of [go/batch-submitter/drivers/sequencer/driver.go]
    (package [sequencer]) and of the polling service that drives it
    (package [batchsubmitter]), with the properties of the range resolver,
    the batch encoder and the service loop stated against that embedding.

    Conventions.
    - Go's [uint64] values are integers in [Z]; the one place where the
      source adds [uint64]s ([totalTxSize]) has its wrap-around written out
      with [uint64].  [*big.Int] values are plain [Z].
    - [len] of a Go slice is a non-negative [int]; the conversion
      [uint64(len(x))] is therefore exact and [oldLen * 9] stays below
      [2^63] for every slice that fits in memory, so slice lengths are [nat].
    - A Go [(value, error)] pair is a [Result].
    - Calls to collaborators, log lines and metric updates are recorded, in
      program order, in a list of [Event]s returned next to the value.
    - The [for { ... continue ... }] loop of [SubmitBatchTx] has no bound in
      the source; it is embedded with a fuel argument and [None] stands for
      "still looping when the fuel ran out". *)

From Stdlib Require Import ZArith List Lia String.
From Stdlib.Strings Require Import Byte.
From stdpp Require Import base numbers list list_numbers.
Import ListNotations.

Local Open Scope Z_scope.

(** ** Values shared by the two packages *)

(** A Go [error].  Errors produced by collaborators are opaque; the only
    error the code under study builds itself is the one of
    [GetBatchBlockRange]. *)
Inductive error : Type :=
| External (msg : string)
| InvalidRange (end_ start : Z).

Inductive Result (A : Type) : Type :=
| Ok (a : A)
| Err (e : error).
Arguments Ok {A} a.
Arguments Err {A} e.

(** [uint64(x)]: reduction modulo [2^64]. *)
Definition uint64 (z : Z) : Z := z mod 2 ^ 64.

(** [x.Uint64()] of a [*big.Int]: the low 64 bits of its magnitude. *)
Definition BigInt_Uint64 (x : Z) : Z := uint64 (Z.abs x).

(** [bind.TransactOpts], restricted to the fields the driver assigns. *)
Record TransactOpts : Type := mkOpts {
  From : Z;
  Nonce : option Z;
  GasPrice : option Z
}.

(** Observable actions, in program order. *)
Inductive Event : Type :=
(* package sequencer *)
| CallGetTotalElements
| CallHeaderByNumber
| CallBlockByNumber (i : Z)
| LogPruned (old_num_txs new_num_txs : nat)
| LogConstructed (num_txs length : nat)
| CallRawTransact (opts : TransactOpts) (calldata : list byte)
(* package batchsubmitter *)
| CallBalanceAt
| LogError (what : string) (e : error)
| SetETHBalance (wei : Z)
| CallGetBatchBlockRange
| LogNoUpdates (start end_ : Z)
| LogBlockRange (start end_ : Z)
| CallNonceAt
| CallSend
| LogAttempting (start end_ nonce gasPrice : Z)
| CallSubmitBatchTx (start end_ nonce gasPrice : Z)
| LogSubmitted (start end_ nonce gasPrice : Z)
| IncFailedSubmissions
| LogPublished
| SetBatchConfirmationTime
| IncBatchesSubmitted
| SetSubmissionGasUsed
| SetSubmissionTimestamp.

Definition is_RawTransact (e : Event) : bool :=
  match e with CallRawTransact _ _ => true | _ => false end.

Definition is_SubmissionAttempt (e : Event) : bool :=
  match e with
  | CallSend | CallSubmitBatchTx _ _ _ _ | CallRawTransact _ _ => true
  | _ => false
  end.

Definition is_RangeResolution (e : Event) : bool :=
  match e with CallGetBatchBlockRange => true | _ => false end.

(** The actions [SubmitBatchTx] itself can perform. *)
Definition is_EncoderEvent (e : Event) : bool :=
  match e with
  | CallBlockByNumber _ | LogPruned _ _ | LogConstructed _ _
  | CallRawTransact _ _ => true
  | _ => false
  end.

(** [emit evs m] puts [evs] in front of the events of a computation that may
    still be running. *)
Definition emit {A} (evs : list Event) (m : option (list Event * A))
  : option (list Event * A) :=
  match m with
  | Some (tr, a) => Some (evs ++ tr, a)
  | None => None
  end.

(** ** Package sequencer *)

Module Sequencer.

Section Driver.

Context {Block BatchElement BatchParams Transaction : Type}.

(** [Config], restricted to the fields the two methods read. *)
Record Config : Type := mkConfig {
  BlockOffset : Z;
  MaxTxSize : Z
}.

(** The declarations of package [sequencer] that [driver.go] uses but
    that live in other files of the package: the element type with its
    classifier, the size of its transaction, the length-prefix constant
    and the two encoding steps.  They are taken as parameters. *)
Record Codec : Type := mkCodec {
  BatchElementFromBlock : Block -> BatchElement;
  IsSequencerTx : BatchElement -> bool;
  TxSize : BatchElement -> Z;
  TxLenSize : Z;
  GenSequencerBatchParams : Z -> Z -> list BatchElement -> Result BatchParams;
  Serialize : BatchParams -> Result (list byte)
}.

(** [Driver]: its configuration and the answers of the clients and
    contract bindings it holds. *)
Record Driver : Type := mkDriver {
  cfg : Config;
  GetTotalElements : Result Z;
  HeaderByNumber : Result Z;
  BlockByNumber : Z -> Result Block;
  appendSequencerBatchID : list byte;
  NewKeyedTransactorWithChainID : Result TransactOpts;
  RawTransact : TransactOpts -> list byte -> Result Transaction
}.

Variable c : Codec.
Variable d : Driver.

(** *** GetBatchBlockRange *)

Definition GetBatchBlockRange : list Event * Result (Z * Z) :=
  let blockOffset := BlockOffset (cfg d) in
  match GetTotalElements d with
  | Err err => ([CallGetTotalElements], Err err)
  | Ok start =>
    let start := start + blockOffset in
    match HeaderByNumber d with
    | Err err => ([CallGetTotalElements; CallHeaderByNumber], Err err)
    | Ok latestHeaderNumber =>
      let end_ := latestHeaderNumber + 1 in
      if start >? end_
      then ([CallGetTotalElements; CallHeaderByNumber],
            Err (InvalidRange end_ start))
      else ([CallGetTotalElements; CallHeaderByNumber], Ok (start, end_))
    end
  end.

(** *** SubmitBatchTx *)

(** Where a call of [SubmitBatchTx] returned from. *)
Inductive Site : Type :=
| AtBlockByNumber
| AtGenSequencerBatchParams
| AtSerialize
| AtNewKeyedTransactor.

(** [Abort s e] is one of the four [return nil, err]; [Transact r] is the
    final [return d.rawCtcContract.RawTransact(opts, batchCallData)]. *)
Inductive Outcome : Type :=
| Abort (s : Site) (e : error)
| Transact (r : Result Transaction).

(** The [(tx, err)] pair handed back to the caller. *)
Definition returned (o : Outcome) : Result Transaction :=
  match o with
  | Abort _ e => Err e
  | Transact r => r
  end.

(** The heights visited by
    [for i := start; i.Cmp(end) < 0; i.Add(i, bigOne)]. *)
Definition heights (start end_ : Z) : list Z := seqZ start (end_ - start).

(** State of the first loop: the elements kept so far and the running
    size estimate. *)
Record Accum : Type := mkAccum {
  batchElements : list BatchElement;
  totalTxSize : Z
}.

(** The first loop, over the heights still to visit.  [Err] is the early
    [return nil, err]; falling out of the [match] on [[]] and the [break]
    both leave the loop with the current state. *)
Fixpoint accumulate (hs : list Z) (st : Accum)
  : list Event * Result Accum :=
  match hs with
  | [] => ([], Ok st)
  | i :: hs' =>
    match BlockByNumber d i with
    | Err err => ([CallBlockByNumber i], Err err)
    | Ok block =>
      let batchElement := BatchElementFromBlock c block in
      if IsSequencerTx c batchElement then
        let txLen := TxSize c batchElement in
        let next := uint64 (totalTxSize st + uint64 (TxLenSize c + txLen)) in
        if next >? MaxTxSize (cfg d)
        then ([CallBlockByNumber i], Ok st)
        else
          let (tr, r) :=
            accumulate hs'
              (mkAccum (batchElements st ++ [batchElement]) next) in
          (CallBlockByNumber i :: tr, r)
      else
        let (tr, r) :=
          accumulate hs'
            (mkAccum (batchElements st ++ [batchElement]) (totalTxSize st)) in
        (CallBlockByNumber i :: tr, r)
    end
  end.

(** [(oldLen * 9) / 10] *)
Definition newBatchElementsLen (oldLen : nat) : nat := (oldLen * 9 / 10)%nat.

(** The call data built by one pass of the second loop. *)
Definition batchCallData (shouldStartAt : Z) (elems : list BatchElement)
  : Result (list byte) :=
  match GenSequencerBatchParams c shouldStartAt (BlockOffset (cfg d)) elems with
  | Err err => Err err
  | Ok batchParams =>
    match Serialize c batchParams with
    | Err err => Err err
    | Ok batchArguments => Ok (appendSequencerBatchID d ++ batchArguments)
    end
  end.

(** The second loop. *)
Fixpoint shrink (fuel : nat) (shouldStartAt nonce gasPrice : Z)
    (elems : list BatchElement) : option (list Event * Outcome) :=
  match fuel with
  | O => None
  | S fuel' =>
    match GenSequencerBatchParams c shouldStartAt (BlockOffset (cfg d)) elems with
    | Err err => Some ([], Abort AtGenSequencerBatchParams err)
    | Ok batchParams =>
      match Serialize c batchParams with
      | Err err => Some ([], Abort AtSerialize err)
      | Ok batchArguments =>
        let callData := appendSequencerBatchID d ++ batchArguments in
        if Z.of_nat (length callData) >? MaxTxSize (cfg d) then
          let oldLen := length elems in
          let newLen := newBatchElementsLen oldLen in
          emit [LogPruned oldLen newLen]
               (shrink fuel' shouldStartAt nonce gasPrice (take newLen elems))
        else
          match NewKeyedTransactorWithChainID d with
          | Err err =>
            Some ([LogConstructed (length elems) (length callData)],
                  Abort AtNewKeyedTransactor err)
          | Ok opts =>
            let opts := mkOpts (From opts) (Some nonce) (Some gasPrice) in
            Some ([LogConstructed (length elems) (length callData);
                   CallRawTransact opts callData],
                  Transact (RawTransact d opts callData))
          end
      end
    end
  end.

Definition SubmitBatchTx (fuel : nat) (start end_ nonce gasPrice : Z)
  : option (list Event * Outcome) :=
  match accumulate (heights start end_) (mkAccum [] 0) with
  | (tr, Err err) => Some (tr, Abort AtBlockByNumber err)
  | (tr, Ok st) =>
    let shouldStartAt := BigInt_Uint64 start in
    emit tr (shrink fuel shouldStartAt nonce gasPrice (batchElements st))
  end.

End Driver.

End Sequencer.

(** ** Package batchsubmitter *)

Module BatchSubmitter.

Section Service.

Context {Transaction Receipt : Type}.

(** The [Driver] interface, restricted to the two methods the loop calls.
    [SubmitBatchTx] may fail to return, hence the [option]. *)
Record Driver : Type := mkDriver {
  GetBatchBlockRange : list Event * Result (Z * Z);
  SubmitBatchTx : Z -> Z -> Z -> Z -> option (list Event * Result Transaction)
}.

(** What one polling cycle of a [Service] sees: its driver, the answers of
    the L1 client and the transaction manager.  [Send] takes the [sendTx]
    closure and calls it as it sees fit. *)
Record Service : Type := mkService {
  cfg_Driver : Driver;
  BalanceAt : Result Z;
  NonceAt : Result Z;
  Send : (Z -> option (list Event * Result Transaction)) ->
         option (list Event * Result Receipt)
}.

Variable s : Service.

(** The [sendTx] closure built in the loop body; the batch-size histogram
    it feeds on success is left out. *)
Definition sendTx (start end_ nonce gasPrice : Z)
  : option (list Event * Result Transaction) :=
  emit [LogAttempting start end_ nonce gasPrice;
        CallSubmitBatchTx start end_ nonce gasPrice]
    match SubmitBatchTx (cfg_Driver s) start end_ nonce gasPrice with
    | None => None
    | Some (tr, Err err) => Some (tr, Err err)
    | Some (tr, Ok tx) =>
      Some (tr ++ [LogSubmitted start end_ nonce gasPrice], Ok tx)
    end.

(** One pass through the [case <-time.After(s.cfg.PollInterval)] branch of
    [eventLoop].  Every [continue] ends the pass.  The balance gauge is
    recorded with the value in wei.  On success the log line and the three
    gauges are recorded without their values, which are a hash and a gas
    count read off the receipt and two clock readings. *)
Definition eventLoop_cycle : option (list Event) :=
  match BalanceAt s with
  | Err err =>
    Some [CallBalanceAt; LogError "unable to get current balance" err]
  | Ok balance =>
    let tr0 := [CallBalanceAt; SetETHBalance balance; CallGetBatchBlockRange] in
    match GetBatchBlockRange (cfg_Driver s) with
    | (tr1, Err err) =>
      Some (tr0 ++ tr1 ++ [LogError "unable to get block range" err])
    | (tr1, Ok (start, end_)) =>
      if start =? end_
      then Some (tr0 ++ tr1 ++ [LogNoUpdates start end_])
      else
        let tr2 := tr0 ++ tr1 ++ [LogBlockRange start end_; CallNonceAt] in
        match NonceAt s with
        | Err err =>
          Some (tr2 ++ [LogError "unable to get current nonce" err])
        | Ok nonce64 =>
          let nonce := nonce64 in
          match Send s (sendTx start end_ nonce) with
          | None => None
          | Some (tr3, Err err) =>
            Some (tr2 ++ [CallSend] ++ tr3 ++
                  [LogError "unable to publish batch tx" err;
                   IncFailedSubmissions])
          | Some (tr3, Ok receipt) =>
            Some (tr2 ++ [CallSend] ++ tr3 ++
                  [LogPublished; SetBatchConfirmationTime;
                   IncBatchesSubmitted; SetSubmissionGasUsed;
                   SetSubmissionTimestamp])
          end
        end
    end
  end.

End Service.

(** [eventLoop] until the context is cancelled: one [Service] snapshot per
    timer tick that fired before cancellation. *)
Fixpoint eventLoop {Transaction Receipt : Type}
    (ticks : list (@Service Transaction Receipt)) : option (list Event) :=
  match ticks with
  | [] => Some []
  | s :: ticks' =>
    match eventLoop_cycle s with
    | None => None
    | Some tr =>
      match eventLoop ticks' with
      | None => None
      | Some tr' => Some (tr ++ tr')
      end
    end
  end.

(** The sequencer driver behind the [Driver] interface. *)
Definition sequencerDriver {Block BatchElement BatchParams Transaction : Type}
    (c : @Sequencer.Codec Block BatchElement BatchParams)
    (d : @Sequencer.Driver Block Transaction) (fuel : nat)
  : @Driver Transaction :=
  {| GetBatchBlockRange := Sequencer.GetBatchBlockRange d;
     SubmitBatchTx := fun start end_ nonce gasPrice =>
       match Sequencer.SubmitBatchTx c d fuel start end_ nonce gasPrice with
       | None => None
       | Some (tr, o) => Some (tr, Sequencer.returned o)
       end |}.

End BatchSubmitter.

(** ** Fixtures

    A small world to run the embedding on: a block is its single
    transaction's raw bytes when it was locally sequenced and [None] when it
    was enqueued on L1; the toy codec writes an 11-byte header, then a
    3-byte length and the raw bytes for a sequenced element and one marker
    byte for an enqueued one. *)

Module Fixtures.

Definition Block : Type := option (list byte).
Definition BatchElement : Type := option (list byte).
Definition BatchParams : Type := (Z * list BatchElement)%type.
Definition Transaction : Type := list byte.
Definition Receipt : Type := list byte.

Definition encodeElement (el : BatchElement) : list byte :=
  match el with
  | Some raw => [x00; x00; x00] ++ raw
  | None => [x00]
  end.

Definition codec : @Sequencer.Codec Block BatchElement BatchParams :=
  {| Sequencer.BatchElementFromBlock := fun b => b;
     Sequencer.IsSequencerTx := fun el =>
       match el with Some _ => true | None => false end;
     Sequencer.TxSize := fun el =>
       match el with Some raw => Z.of_nat (length raw) | None => 0 end;
     Sequencer.TxLenSize := 3;
     Sequencer.GenSequencerBatchParams := fun shouldStartAt blockOffset batch =>
       Ok (shouldStartAt - blockOffset, batch);
     Sequencer.Serialize := fun p =>
       Ok (repeat x00 11 ++ concat (map encodeElement (snd p))) |}.

(** A driver over the L2 chain [blocks] (heights from 0), with [committed]
    elements already on L1 and the given size ceiling. *)
Definition driver (committed maxTxSize : Z) (blocks : list Block)
  : @Sequencer.Driver Block Transaction :=
  {| Sequencer.cfg := Sequencer.mkConfig 0 maxTxSize;
     Sequencer.GetTotalElements := Ok committed;
     Sequencer.HeaderByNumber := Ok (Z.of_nat (length blocks) - 1);
     Sequencer.BlockByNumber := fun i =>
       if i <? 0 then Err (External "not found")
       else match nth_error blocks (Z.to_nat i) with
            | Some b => Ok b
            | None => Err (External "not found")
            end;
     Sequencer.appendSequencerBatchID := [xd0; xf8; x93; x44];
     Sequencer.NewKeyedTransactorWithChainID := Ok (mkOpts 1 None None);
     Sequencer.RawTransact := fun _ callData => Ok callData |}.

(** A transaction manager that calls [sendTx] once, at gas price 1, and
    reports the transaction as its receipt. *)
Definition sendOnce
    (sendTx : Z -> option (list Event * Result Transaction))
  : option (list Event * Result Receipt) :=
  sendTx 1.

Definition service (balance : Result Z)
    (drv : @Sequencer.Driver Block Transaction) (fuel : nat)
  : @BatchSubmitter.Service Transaction Receipt :=
  {| BatchSubmitter.cfg_Driver := BatchSubmitter.sequencerDriver codec drv fuel;
     BatchSubmitter.BalanceAt := balance;
     BatchSubmitter.NonceAt := Ok 7;
     BatchSubmitter.Send := sendOnce |}.

(** Three blocks: sequenced (2 bytes), enqueued, sequenced (1 byte). *)
Definition blocks3 : list Block := [Some [x01; x02]; None; Some [x03]].

(** Five enqueued blocks. *)
Definition enqueued5 : list Block := [None; None; None; None; None].

End Fixtures.

(** ** The encoding steps, from the specification

    [driver.go] calls [BatchElementFromBlock], [IsSequencerTx], [Tx.Size],
    [GenSequencerBatchParams] and [Serialize], which are declared in other
    files of package [sequencer].  What follows is their description in the
    specification, for the statements that are about the bytes they
    produce. *)

Module SpecCodec.

(** Modelled from the spec: the [BatchElement] type, declared outside
    [driver.go].  Section 3: a timestamp, a height and, only for a
    locally-sequenced element, the raw transaction bytes to be re-posted;
    an externally-enqueued element carries no payload. *)
Record BatchElement : Type := mkBatchElement {
  Timestamp : Z;
  BlockNumber : Z;
  Tx : option (list byte)
}.

(** Modelled from the spec: [IsSequencerTx], the classification flag of
    section 3: locally-sequenced exactly when the element carries
    transaction bytes. *)
Definition IsSequencerTx (el : BatchElement) : bool :=
  match Tx el with Some _ => true | None => false end.

(** Modelled from the spec: [Tx.Size()], the size of the raw transaction
    bytes of a locally-sequenced element. *)
Definition TxSize (el : BatchElement) : Z :=
  match Tx el with Some raw => Z.of_nat (length raw) | None => 0 end.

(** Modelled from the spec: [AppendSequencerBatchParams], section 3: an
    ordered sequence of batch elements plus the starting height and the
    height offset. *)
Record BatchParams : Type := mkBatchParams {
  ShouldStartAtElement : Z;
  Offset : Z;
  Elements : list BatchElement
}.

(** Modelled from the spec: [GenSequencerBatchParams], which puts the
    elements, in order, and the starting height into the serializable
    unit. *)
Definition GenSequencerBatchParams (shouldStartAt blockOffset : Z)
    (batch : list BatchElement) : Result BatchParams :=
  Ok (mkBatchParams shouldStartAt blockOffset batch).

(** Modelled from the spec: the length prefix of a transaction, [width]
    bytes holding the byte count, most significant byte first. *)
Fixpoint lengthPrefix (width : nat) (n : N) : list byte :=
  match width with
  | O => []
  | S width' =>
    lengthPrefix width' (n / 256)
      ++ [match Byte.of_N (n mod 256) with Some b => b | None => x00 end]
  end.

(** Modelled from the spec: what one element adds to the payload: a
    locally-sequenced element its length prefix and its raw bytes, an
    externally-enqueued one nothing beyond the ordering metadata. *)
Definition encodeTx (width : nat) (el : BatchElement) : list byte :=
  match Tx el with
  | Some raw => lengthPrefix width (N.of_nat (length raw)) ++ raw
  | None => []
  end.

(** Modelled from the spec: [Serialize], section 4.2: the grouping and
    context overhead, whose layout the specification leaves to the
    contract's decoder and which is therefore any bytes [overhead] computes
    from the parameters, followed by the transactions in order. *)
Definition Serialize (width : nat) (overhead : BatchParams -> list byte)
    (p : BatchParams) : Result (list byte) :=
  Ok (overhead p ++ concat (map (encodeTx width) (Elements p))).

(** Modelled from the spec: the encoding steps together, for a length
    prefix of [width] bytes and a conversion [fromBlock] of blocks to
    elements. *)
Definition codec {Block : Type} (width : nat)
    (overhead : BatchParams -> list byte) (fromBlock : Block -> BatchElement)
  : @Sequencer.Codec Block BatchElement BatchParams :=
  {| Sequencer.BatchElementFromBlock := fromBlock;
     Sequencer.IsSequencerTx := IsSequencerTx;
     Sequencer.TxSize := TxSize;
     Sequencer.TxLenSize := Z.of_nat width;
     Sequencer.GenSequencerBatchParams := GenSequencerBatchParams;
     Sequencer.Serialize := Serialize width overhead |}.

(** A conversion for the blocks of the fixtures. *)
Definition fromFixtureBlock (b : Fixtures.Block) : BatchElement :=
  mkBatchElement 0 0 b.

End SpecCodec.

(** ** Vocabulary of the statements *)

Module Props.

Section Props.

Context {Block BatchElement BatchParams Transaction : Type}.
Variable c : @Sequencer.Codec Block BatchElement BatchParams.
Variable d : @Sequencer.Driver Block Transaction.

(** [el] is the batch element of the block the L2 client returned for
    height [i]. *)
Definition elementAt (i : Z) (el : BatchElement) : Prop :=
  exists block, Sequencer.BlockByNumber d i = Ok block /\
                el = Sequencer.BatchElementFromBlock c block.

(** What one element adds to the running estimate [t]: a sequencer
    transaction adds its length prefix and its size, in [uint64]
    arithmetic; anything else adds nothing. *)
Definition addToEstimate (t : Z) (el : BatchElement) : Z :=
  if Sequencer.IsSequencerTx c el
  then uint64 (t + uint64 (Sequencer.TxLenSize c + Sequencer.TxSize c el))
  else t.

Definition estimate (t : Z) (els : list BatchElement) : Z :=
  fold_left addToEstimate els t.

(** The exact sum the estimate approximates. *)
Definition sequencerBytes (els : list BatchElement) : Z :=
  fold_right
    (fun el acc =>
       if Sequencer.IsSequencerTx c el
       then Sequencer.TxLenSize c + Sequencer.TxSize c el + acc
       else acc)
    0 els.

(** No event of the trace is a publication. *)
Definition quiet (tr : list Event) : Prop :=
  Forall (fun e => is_RawTransact e = false) tr.

(** The call data of the batch [els] exists and is over the ceiling. *)
Definition oversize (shouldStartAt : Z) (els : list BatchElement) : Prop :=
  exists callData,
    Sequencer.batchCallData c d shouldStartAt els = Ok callData /\
    Z.of_nat (length callData) > Sequencer.MaxTxSize (Sequencer.cfg d).

End Props.

End Props.

(** ** Facts about the encoder *)

Module SequencerFacts.

Import Sequencer Props.

Lemma newBatchElementsLen_0 : newBatchElementsLen 0 = 0%nat.
Proof. reflexivity. Qed.

Lemma newBatchElementsLen_le (n : nat) : (newBatchElementsLen n <= n)%nat.
Proof. unfold newBatchElementsLen. apply Nat.Div0.div_le_upper_bound. lia. Qed.

Lemma newBatchElementsLen_lt (n : nat) :
  (0 < n)%nat -> (newBatchElementsLen n < n)%nat.
Proof.
  intros Hn. unfold newBatchElementsLen.
  apply Nat.Div0.div_lt_upper_bound. lia.
Qed.

Lemma newBatchElementsLen_dropped (n : nat) :
  (n - newBatchElementsLen n = (n + 9) / 10)%nat.
Proof.
  unfold newBatchElementsLen.
  pose proof (Nat.div_mod_eq (n * 9) 10).
  pose proof (Nat.div_mod_eq (n + 9) 10).
  pose proof (Nat.mod_upper_bound (n * 9) 10).
  pose proof (Nat.mod_upper_bound (n + 9) 10).
  lia.
Qed.

Lemma emit_Some {A} (evs : list Event) (m : option (list Event * A)) tr a :
  emit evs m = Some (tr, a) ->
  exists tr', m = Some (tr', a) /\ tr = evs ++ tr'.
Proof.
  destruct m as [[tr' a']|]; simpl; intros H; [|discriminate].
  injection H as <- <-. eauto.
Qed.

Lemma emit_None {A} (evs : list Event) (m : option (list Event * A)) :
  emit evs m = None <-> m = None.
Proof. destruct m as [[? ?]|]; simpl; split; congruence. Qed.

Section Facts.

Context {Block BatchElement BatchParams Transaction : Type}.
Variable c : @Codec Block BatchElement BatchParams.
Variable d : @Driver Block Transaction.

Lemma quiet_app (tr1 tr2 : list Event) :
  quiet tr1 -> quiet tr2 -> quiet (tr1 ++ tr2).
Proof. unfold quiet. intros. apply Forall_app; auto. Qed.

(** One pass of the second loop, by the four ways it can go. *)
Lemma shrink_S fuel s n g (elems : list BatchElement) :
  shrink c d (S fuel) s n g elems =
  match GenSequencerBatchParams c s (BlockOffset (cfg d)) elems with
  | Err err => Some ([], Abort AtGenSequencerBatchParams err)
  | Ok batchParams =>
    match Serialize c batchParams with
    | Err err => Some ([], Abort AtSerialize err)
    | Ok batchArguments =>
      let callData := appendSequencerBatchID d ++ batchArguments in
      if Z.of_nat (length callData) >? MaxTxSize (cfg d) then
        emit [LogPruned (length elems) (newBatchElementsLen (length elems))]
          (shrink c d fuel s n g
             (take (newBatchElementsLen (length elems)) elems))
      else
        match NewKeyedTransactorWithChainID d with
        | Err err =>
          Some ([LogConstructed (length elems) (length callData)],
                Abort AtNewKeyedTransactor err)
        | Ok opts =>
          Some ([LogConstructed (length elems) (length callData);
                 CallRawTransact
                   (mkOpts (From opts) (Some n) (Some g)) callData],
                Transact
                  (RawTransact d (mkOpts (From opts) (Some n) (Some g))
                     callData))
        end
    end
  end.
Proof. reflexivity. Qed.

(** What a finished run of the second loop looks like. *)
Lemma shrink_returns fuel s n g : forall (elems : list BatchElement) tr out,
  shrink c d fuel s n g elems = Some (tr, out) ->
  exists (k : nat) (logs : list Event),
    (k <= length elems)%nat /\ quiet logs /\
    match out with
    | Transact r =>
      exists callData opts0,
        batchCallData c d s (take k elems) = Ok callData /\
        Z.of_nat (length callData) <= MaxTxSize (cfg d) /\
        NewKeyedTransactorWithChainID d = Ok opts0 /\
        tr = logs ++
             [LogConstructed k (length callData);
              CallRawTransact (mkOpts (From opts0) (Some n) (Some g)) callData] /\
        r = RawTransact d (mkOpts (From opts0) (Some n) (Some g)) callData
    | Abort site e => site <> AtBlockByNumber /\ tr = logs
    end.
Proof.
  induction fuel as [|fuel IH]; intros elems tr out H; [discriminate|].
  rewrite shrink_S in H. unfold batchCallData.
  destruct (GenSequencerBatchParams c s (BlockOffset (cfg d)) elems)
    as [params|e] eqn:Hgen.
  2:{ injection H as <- <-. exists (length elems), [].
      split; [lia|]. split; [constructor|]. split; [discriminate|reflexivity]. }
  destruct (Serialize c params) as [args|e] eqn:Hser.
  2:{ injection H as <- <-. exists (length elems), [].
      split; [lia|]. split; [constructor|]. split; [discriminate|reflexivity]. }
  cbv zeta in H.
  destruct (Z.of_nat (length (appendSequencerBatchID d ++ args))
            >? MaxTxSize (cfg d)) eqn:Hcmp.
  - apply emit_Some in H as (tr' & H & ->).
    apply IH in H as (k & logs & Hk & Hq & H).
    rewrite length_take in Hk.
    assert (Htake : take k (take (newBatchElementsLen (length elems)) elems)
                    = take k elems).
    { rewrite take_take. f_equal. lia. }
    exists k, (LogPruned (length elems) (newBatchElementsLen (length elems))
               :: logs).
    split; [lia|]. split; [constructor; auto|].
    destruct out as [site e|r].
    + destruct H as [Hs ->]. auto.
    + destruct H as (callData & opts0 & Hcd & Hle & Hopts & -> & ->).
      exists callData, opts0. rewrite Htake in Hcd. unfold batchCallData in Hcd.
      repeat split; auto.
  - rewrite Z.gtb_ltb in Hcmp. apply Z.ltb_ge in Hcmp.
    destruct (NewKeyedTransactorWithChainID d) as [opts0|e] eqn:Hopts.
    + injection H as <- <-. exists (length elems), []. split; [lia|].
      split; [constructor|].
      exists (appendSequencerBatchID d ++ args), opts0.
      rewrite firstn_all, Hgen, Hser. repeat split; auto.
    + injection H as <- <-.
      exists (length elems),
        [LogConstructed (length elems)
           (length (appendSequencerBatchID d ++ args))].
      split; [lia|]. split; [repeat constructor|]. split; [discriminate|auto].
Qed.

(** An empty batch that is over the ceiling is pruned to itself. *)
Lemma shrink_spins_on_empty fuel s n g :
  oversize c d s [] -> shrink c d fuel s n g [] = None.
Proof.
  intros (callData & Hcd & Hgt). unfold batchCallData in Hcd.
  induction fuel as [|fuel IH]; [reflexivity|].
  rewrite shrink_S.
  destruct (GenSequencerBatchParams c s (BlockOffset (cfg d)) [])
    as [params|e]; [|discriminate].
  destruct (Serialize c params) as [args|e]; [|discriminate].
  injection Hcd as <-. cbv zeta.
  replace (_ >? _) with true by (symmetry; apply Z.gtb_gt; lia).
  simpl. rewrite IH. reflexivity.
Qed.

(** When every prefix is over the ceiling the loop never leaves. *)
Lemma shrink_spins fuel s n g : forall elems : list BatchElement,
  (forall k, oversize c d s (take k elems)) ->
  shrink c d fuel s n g elems = None.
Proof.
  induction fuel as [|fuel IH]; intros elems Hall; [reflexivity|].
  rewrite shrink_S.
  destruct (Hall (length elems)) as (callData & Hcd & Hgt).
  rewrite firstn_all in Hcd. unfold batchCallData in Hcd.
  destruct (GenSequencerBatchParams c s (BlockOffset (cfg d)) elems)
    as [params|e]; [|discriminate].
  destruct (Serialize c params) as [args|e]; [|discriminate].
  injection Hcd as <-. cbv zeta.
  replace (_ >? _) with true by (symmetry; apply Z.gtb_gt; lia).
  apply emit_None. apply IH. intros k. rewrite take_take. apply Hall.
Qed.

(** Unless the empty batch itself is over the ceiling, the loop returns,
    and one pass per element plus one is enough. *)
Lemma shrink_terminates s n g : forall fuel (elems : list BatchElement),
  ~ oversize c d s [] -> (length elems < fuel)%nat ->
  exists tr out, shrink c d fuel s n g elems = Some (tr, out).
Proof.
  induction fuel as [|fuel IH]; intros elems Hempty Hlen; [lia|].
  rewrite shrink_S.
  destruct (GenSequencerBatchParams c s (BlockOffset (cfg d)) elems)
    as [params|e] eqn:Hgen; [|eauto].
  destruct (Serialize c params) as [args|e] eqn:Hser; [|eauto].
  cbv zeta.
  destruct (_ >? _) eqn:Hcmp.
  - assert (Hne : (0 < length elems)%nat).
    { destruct elems as [|el elems]; [|simpl; lia].
      exfalso. apply Hempty. exists (appendSequencerBatchID d ++ args).
      unfold batchCallData. rewrite Hgen, Hser. split; [reflexivity|].
      apply Z.gtb_gt in Hcmp. lia. }
    pose proof (newBatchElementsLen_lt _ Hne) as Hlt.
    destruct (IH (take (newBatchElementsLen (length elems)) elems) Hempty)
      as (tr & out & ->).
    { rewrite length_take. lia. }
    simpl. eauto.
  - destruct (NewKeyedTransactorWithChainID d); eauto.
Qed.

(** [k] prunings leave at most [(9/10)^k] of the elements. *)
Lemma prune_geometric (n k : nat) :
  (Nat.iter k newBatchElementsLen n * 10 ^ k <= n * 9 ^ k)%nat.
Proof.
  induction k as [|k IH]; [simpl; lia|].
  change (Nat.iter (S k) newBatchElementsLen n)
    with (newBatchElementsLen (Nat.iter k newBatchElementsLen n)).
  set (m := Nat.iter k newBatchElementsLen n) in *.
  assert (H : (newBatchElementsLen m * 10 <= m * 9)%nat).
  { unfold newBatchElementsLen. pose proof (Nat.div_mod_eq (m * 9) 10). lia. }
  rewrite !Nat.pow_succ_r'. nia.
Qed.

(** The first loop never publishes. *)
Lemma accumulate_quiet : forall hs st, quiet (fst (accumulate c d hs st)).
Proof.
  induction hs as [|i hs IH]; intros st; simpl; [constructor|].
  destruct (BlockByNumber d i) as [block|e]; [|repeat constructor].
  destruct (IsSequencerTx c _).
  - destruct (_ >? _); [repeat constructor|].
    match goal with |- context [accumulate c d hs ?st'] =>
      specialize (IH st'); destruct (accumulate c d hs st') as [tr r] end.
    constructor; auto.
  - match goal with |- context [accumulate c d hs ?st'] =>
      specialize (IH st'); destruct (accumulate c d hs st') as [tr r] end.
    constructor; auto.
Qed.

(** What the first loop leaves behind when it does not fail. *)
Lemma accumulate_ok : forall hs st tr st',
  accumulate c d hs st = (tr, Ok st') ->
  exists (k : nat) (added : list BatchElement),
    (k <= length hs)%nat /\
    batchElements st' = batchElements st ++ added /\
    Forall2 (elementAt c d) (take k hs) added /\
    totalTxSize st' = estimate c (totalTxSize st) added /\
    ((k = length hs /\ tr = map CallBlockByNumber hs) \/
     (exists i el,
        nth_error hs k = Some i /\ elementAt c d i el /\
        IsSequencerTx c el = true /\
        uint64 (totalTxSize st' + uint64 (TxLenSize c + TxSize c el))
          > MaxTxSize (cfg d) /\
        tr = map CallBlockByNumber (take (S k) hs))).
Proof.
  induction hs as [|i hs IH]; intros st tr st' H; simpl in H.
  - injection H as <- <-. exists 0%nat, []. rewrite app_nil_r.
    repeat split; auto.
  - destruct (BlockByNumber d i) as [block|e] eqn:Hblock; [|discriminate].
    set (el := BatchElementFromBlock c block) in *.
    assert (Hel : elementAt c d i el) by (exists block; auto).
    destruct (IsSequencerTx c el) eqn:Hseq.
    + destruct (_ >? _) eqn:Hcmp.
      * injection H as <- <-. exists 0%nat, []. rewrite app_nil_r.
        split; [simpl; lia|]. split; [auto|]. split; [constructor|].
        split; [reflexivity|]. right. exists i, el.
        apply Z.gtb_gt in Hcmp. repeat split; auto.
      * match type of H with context [accumulate c d hs ?st1] =>
          destruct (accumulate c d hs st1) as [tr1 r1] eqn:Hacc end.
        injection H as <- ->.
        apply IH in Hacc as (k & added & Hk & Hb & Hf & Ht & Hstop).
        simpl in Hb, Ht. exists (S k), (el :: added).
        split; [simpl; lia|]. split; [rewrite Hb, <- app_assoc; auto|].
        split; [simpl; constructor; auto|].
        split; [rewrite Ht; unfold estimate; simpl; unfold addToEstimate;
                rewrite Hseq; reflexivity|].
        destruct Hstop as [[-> ->]|(j & el' & ? & ? & ? & ? & ->)];
          [left; auto|right; exists j, el'; repeat split; auto].
    + match type of H with context [accumulate c d hs ?st1] =>
        destruct (accumulate c d hs st1) as [tr1 r1] eqn:Hacc end.
      injection H as <- ->.
      apply IH in Hacc as (k & added & Hk & Hb & Hf & Ht & Hstop).
      simpl in Hb, Ht. exists (S k), (el :: added).
      split; [simpl; lia|]. split; [rewrite Hb, <- app_assoc; auto|].
      split; [simpl; constructor; auto|].
      split; [rewrite Ht; unfold estimate; simpl; unfold addToEstimate;
              rewrite Hseq; reflexivity|].
      destruct Hstop as [[-> ->]|(j & el' & ? & ? & ? & ? & ->)];
        [left; auto|right; exists j, el'; repeat split; auto].
Qed.

(** A failure of the first loop is a failure of some block fetch. *)
Lemma accumulate_err : forall hs st tr e,
  accumulate c d hs st = (tr, Err e) ->
  exists i, In i hs /\ BlockByNumber d i = Err e.
Proof.
  induction hs as [|i hs IH]; intros st tr e H; simpl in H; [discriminate|].
  destruct (BlockByNumber d i) as [block|e'] eqn:Hblock.
  - destruct (IsSequencerTx c _).
    + destruct (_ >? _); [discriminate|].
      match type of H with context [accumulate c d hs ?st1] =>
        destruct (accumulate c d hs st1) as [tr1 r1] eqn:Hacc end.
      injection H as <- ->. apply IH in Hacc as (j & ? & ?).
      exists j. simpl; auto.
    + match type of H with context [accumulate c d hs ?st1] =>
        destruct (accumulate c d hs st1) as [tr1 r1] eqn:Hacc end.
      injection H as <- ->. apply IH in Hacc as (j & ? & ?).
      exists j. simpl; auto.
  - injection H as <- <-. exists i. simpl; auto.
Qed.

(** The estimate never exceeds the bytes it stands for. *)
Lemma addToEstimate_bounds (t : Z) (el : BatchElement) :
  0 <= TxLenSize c + TxSize c el -> 0 <= t ->
  0 <= addToEstimate c t el <=
    t + (if IsSequencerTx c el then TxLenSize c + TxSize c el else 0).
Proof.
  intros Hx Ht. unfold addToEstimate.
  destruct (IsSequencerTx c el); [|lia].
  set (x := TxLenSize c + TxSize c el) in *.
  assert (Hux : 0 <= uint64 x <= x).
  { unfold uint64. split; [apply Z.mod_pos_bound; lia|apply Z.mod_le; lia]. }
  unfold uint64 at 1 3. split; [apply Z.mod_pos_bound; lia|].
  etrans; [apply Z.mod_le; lia|lia].
Qed.

Lemma estimate_le : forall (els : list BatchElement) t,
  (forall el, 0 <= TxLenSize c + TxSize c el) ->
  0 <= t ->
  0 <= estimate c t els <= t + sequencerBytes c els.
Proof.
  induction els as [|el els IH]; intros t Hpos Ht.
  - unfold estimate; simpl. lia.
  - pose proof (addToEstimate_bounds t el (Hpos el) Ht) as Hb.
    specialize (IH (addToEstimate c t el) Hpos (proj1 Hb)).
    change (estimate c t (el :: els))
      with (estimate c (addToEstimate c t el) els).
    change (sequencerBytes c (el :: els))
      with (if IsSequencerTx c el
            then TxLenSize c + TxSize c el + sequencerBytes c els
            else sequencerBytes c els).
    destruct (IsSequencerTx c el); lia.
Qed.

Lemma take_heights (start end_ : Z) (k : nat) :
  (k <= length (heights start end_))%nat ->
  take k (heights start end_) = seqZ start (Z.of_nat k).
Proof.
  unfold heights. rewrite length_seqZ. intros Hk.
  unfold seqZ. rewrite <- fmap_take, take_seq, Nat2Z.id.
  f_equal. f_equal. lia.
Qed.

(** The two ways a call of [SubmitBatchTx] returns: from the first loop,
    with the error of a block fetch, or from the second. *)
Lemma SubmitBatchTx_returns fuel start end_ nonce gasPrice tr out :
  SubmitBatchTx c d fuel start end_ nonce gasPrice = Some (tr, out) ->
  (exists e, accumulate c d (heights start end_) (mkAccum [] 0) = (tr, Err e) /\
             out = Abort AtBlockByNumber e) \/
  (exists tr1 tr2 st,
     accumulate c d (heights start end_) (mkAccum [] 0) = (tr1, Ok st) /\
     shrink c d fuel (BigInt_Uint64 start) nonce gasPrice (batchElements st)
       = Some (tr2, out) /\
     tr = tr1 ++ tr2).
Proof.
  unfold SubmitBatchTx.
  destruct (accumulate c d (heights start end_) (mkAccum [] 0))
    as [tr1 [st|e]] eqn:Hacc; intros H.
  - right. apply emit_Some in H as (tr2 & H & ->). eauto 6.
  - left. injection H as <- <-. eauto.
Qed.

(** The batch a finished call handed to [RawTransact]: the elements of the
    first [n] heights of the range, in order, and its call data. *)
Lemma SubmitBatchTx_transact fuel start end_ nonce gasPrice tr r :
  SubmitBatchTx c d fuel start end_ nonce gasPrice = Some (tr, Transact r) ->
  exists (kept : list BatchElement) (callData : list byte) opts tr',
    (length kept <= Z.to_nat (end_ - start))%nat /\
    Forall2 (elementAt c d) (seqZ start (Z.of_nat (length kept))) kept /\
    batchCallData c d (BigInt_Uint64 start) kept = Ok callData /\
    Z.of_nat (length callData) <= MaxTxSize (cfg d) /\
    quiet tr' /\
    tr = tr' ++ [CallRawTransact opts callData] /\
    Nonce opts = Some nonce /\ GasPrice opts = Some gasPrice /\
    r = RawTransact d opts callData.
Proof.
  intros H. apply SubmitBatchTx_returns in H
    as [(e & _ & Habs)|(tr1 & tr2 & st & Hacc & Hshr & ->)]; [discriminate|].
  pose proof (accumulate_quiet (heights start end_) (mkAccum [] 0)) as Hq1.
  rewrite Hacc in Hq1. simpl in Hq1.
  apply accumulate_ok in Hacc as (k & added & Hk & Hb & Hf & _ & _).
  simpl in Hb. subst added.
  apply shrink_returns in Hshr
    as (k' & logs & Hk' & Hq & callData & opts0 & Hcd & Hle & _ & -> & ->).
  assert (Hlen : length (batchElements st) = k).
  { apply Forall2_length in Hf. rewrite length_take in Hf. lia. }
  exists (take k' (batchElements st)), callData,
    (mkOpts (From opts0) (Some nonce) (Some gasPrice)),
    (tr1 ++ logs ++ [LogConstructed k' (length callData)]).
  assert (Hlk : length (take k' (batchElements st)) = k')
    by (rewrite length_take; lia).
  rewrite Hlk. split.
  { unfold heights in Hk. rewrite length_seqZ in Hk. lia. }
  split.
  { rewrite <- (take_heights start end_) by lia.
    replace (take k' (heights start end_))
      with (take k' (take k (heights start end_)))
      by (rewrite take_take; f_equal; lia).
    apply Forall2_take. exact Hf. }
  repeat split; auto.
  - apply quiet_app; [exact Hq1|]. apply quiet_app; [exact Hq|].
    repeat constructor.
  - rewrite <- !app_assoc. reflexivity.
Qed.

(** With a codec that never fails and a ceiling below the length of the
    selector, a call either returns the error of a block fetch or does not
    return. *)
Lemma SubmitBatchTx_spins_below_selector fuel start end_ nonce gasPrice :
  (forall s els, exists p,
     GenSequencerBatchParams c s (BlockOffset (cfg d)) els = Ok p) ->
  (forall p, exists args, Serialize c p = Ok args) ->
  MaxTxSize (cfg d) < Z.of_nat (length (appendSequencerBatchID d)) ->
  SubmitBatchTx c d fuel start end_ nonce gasPrice = None \/
  exists tr e,
    SubmitBatchTx c d fuel start end_ nonce gasPrice
      = Some (tr, Abort AtBlockByNumber e).
Proof.
  intros Hgen Hser Hmax. unfold SubmitBatchTx.
  destruct (accumulate c d (heights start end_) (mkAccum [] 0))
    as [tr [st|e]]; [left|right; eauto].
  apply emit_None. apply shrink_spins. intros k.
  destruct (Hgen (BigInt_Uint64 start) (take k (batchElements st)))
    as [p Hp].
  destruct (Hser p) as [args Hargs].
  exists (appendSequencerBatchID d ++ args). unfold batchCallData.
  rewrite Hp, Hargs. split; [reflexivity|]. rewrite length_app. lia.
Qed.

End Facts.

End SequencerFacts.

(** ** Properties of the batch encoder *)

Section EncoderProperties.

Import Sequencer Props SequencerFacts.

Context {Block BatchElement BatchParams Transaction : Type}.
Variable c : @Codec Block BatchElement BatchParams.
Variable d : @Driver Block Transaction.

(** C1: whenever [SubmitBatchTx] builds a batch transaction and publishes it
    successfully, the call data it published, which is the method selector
    followed by the serialized batch parameters, is at most [MaxTxSize]
    bytes long. *)
Theorem SubmitBatchTx_calldata_within_MaxTxSize
    fuel start end_ nonce gasPrice tr tx :
  SubmitBatchTx c d fuel start end_ nonce gasPrice
    = Some (tr, Transact (Ok tx)) ->
  exists opts callData (kept : list BatchElement) batchParams batchArguments,
    last tr = Some (CallRawTransact opts callData) /\
    RawTransact d opts callData = Ok tx /\
    GenSequencerBatchParams c (BigInt_Uint64 start) (BlockOffset (cfg d)) kept
      = Ok batchParams /\
    Serialize c batchParams = Ok batchArguments /\
    callData = appendSequencerBatchID d ++ batchArguments /\
    Z.of_nat (length callData) <= MaxTxSize (cfg d).
Proof.
  intros H. apply SubmitBatchTx_transact in H
    as (kept & callData & opts & tr' & _ & _ & Hcd & Hle & _ & -> & _ & _ & Hr).
  unfold batchCallData in Hcd.
  destruct (GenSequencerBatchParams c (BigInt_Uint64 start) (BlockOffset (cfg d)) kept)
    as [batchParams|] eqn:Hgen; [|discriminate].
  destruct (Serialize c batchParams) as [batchArguments|] eqn:Hser;
    [|discriminate].
  injection Hcd as <-.
  exists opts, (appendSequencerBatchID d ++ batchArguments), kept,
    batchParams, batchArguments.
  rewrite last_snoc. repeat split; auto.
Qed.

(** C9: every batch handed to the contract covers a contiguous prefix of the
    requested range, in ledger order: its elements are those of the heights
    [start], [start + 1], ..., [start + n - 1] for some [n] not beyond
    [end], one element per height and none skipped. *)
Theorem batch_covers_contiguous_prefix
    fuel start end_ nonce gasPrice tr r :
  SubmitBatchTx c d fuel start end_ nonce gasPrice = Some (tr, Transact r) ->
  exists (n : nat) (kept : list BatchElement) opts callData,
    (n <= Z.to_nat (end_ - start))%nat /\
    length kept = n /\
    (forall j : nat, (j < n)%nat ->
       exists el, kept !! j = Some el /\ elementAt c d (start + Z.of_nat j) el) /\
    batchCallData c d (BigInt_Uint64 start) kept = Ok callData /\
    last tr = Some (CallRawTransact opts callData).
Proof.
  intros H. apply SubmitBatchTx_transact in H
    as (kept & callData & opts & tr' & Hn & Hf & Hcd & _ & _ & -> & _).
  exists (length kept), kept, opts, callData.
  split; [exact Hn|]. split; [reflexivity|]. split.
  - intros j Hj.
    destruct (lookup_lt_is_Some_2 kept j Hj) as [el Hel].
    exists el. split; [exact Hel|].
    pose proof (Forall2_lookup_r _ _ _ j el Hf Hel) as (i & Hi & Hat).
    apply lookup_seqZ in Hi as [-> _]. exact Hat.
  - split; [exact Hcd|]. apply last_snoc.
Qed.

(** C10: a call of [SubmitBatchTx] that returns the error of a block fetch,
    of [GenSequencerBatchParams], of [Serialize] or of the transactor
    construction has broadcast nothing; and a call that reaches
    [RawTransact] calls it once, as its last action, with call data that
    passed the size check. *)
Theorem SubmitBatchTx_error_broadcasts_nothing
    fuel start end_ nonce gasPrice tr out :
  SubmitBatchTx c d fuel start end_ nonce gasPrice = Some (tr, out) ->
  match out with
  | Abort site e => quiet tr
  | Transact r =>
    exists tr' opts callData,
      tr = tr' ++ [CallRawTransact opts callData] /\ quiet tr' /\
      Z.of_nat (length callData) <= MaxTxSize (cfg d) /\
      r = RawTransact d opts callData
  end.
Proof.
  intros H. destruct out as [site e|r].
  - apply SubmitBatchTx_returns in H
      as [(e' & Hacc & _)|(tr1 & tr2 & st & Hacc & Hshr & ->)].
    + pose proof (accumulate_quiet c d (heights start end_) (mkAccum [] 0)) as Hq.
      rewrite Hacc in Hq. exact Hq.
    + pose proof (accumulate_quiet c d (heights start end_) (mkAccum [] 0)) as Hq.
      rewrite Hacc in Hq.
      apply shrink_returns in Hshr as (k & logs & _ & Hq2 & _ & ->).
      apply quiet_app; assumption.
  - apply SubmitBatchTx_transact in H
      as (kept & callData & opts & tr' & _ & _ & _ & Hle & Hq & -> & _ & _ & ->).
    exists tr', opts, callData. auto.
Qed.

(** C2, at the defect: when the call data of the empty batch is itself over
    [MaxTxSize], a failed size check on the empty batch does not decrease
    the element count ([0 * 9 / 10 = 0]) and the loop is still running
    after any number of passes. *)
Theorem shrink_loop_spins_on_oversize_empty_batch
    shouldStartAt nonce gasPrice :
  oversize c d shouldStartAt [] ->
  newBatchElementsLen (length (@nil BatchElement))
    = length (@nil BatchElement) /\
  forall fuel, shrink c d fuel shouldStartAt nonce gasPrice [] = None.
Proof.
  intros Hover. split; [reflexivity|].
  intros fuel. apply shrink_spins_on_empty. exact Hover.
Qed.

(** C6, as the code has it: a pass whose call data is over [MaxTxSize] keeps
    the leading [oldLen * 9 / 10] elements, that is, it drops the last tenth
    rounded up, and goes round again to serialize what is left. *)
Theorem pruning_keeps_leading_nine_tenths
    fuel shouldStartAt nonce gasPrice (elems : list BatchElement) :
  oversize c d shouldStartAt elems ->
  let oldLen := length elems in
  let newLen := (oldLen * 9 / 10)%nat in
  shrink c d (S fuel) shouldStartAt nonce gasPrice elems
    = emit [LogPruned oldLen newLen]
        (shrink c d fuel shouldStartAt nonce gasPrice (take newLen elems)) /\
  length (take newLen elems) = newLen /\
  (oldLen - newLen = (oldLen + 9) / 10)%nat /\
  elems = take newLen elems ++ drop newLen elems.
Proof.
  intros (callData & Hcd & Hgt) oldLen newLen.
  unfold batchCallData in Hcd. rewrite shrink_S.
  destruct (GenSequencerBatchParams c shouldStartAt (BlockOffset (cfg d)) elems)
    as [params|e]; [|discriminate].
  destruct (Serialize c params) as [args|e]; [|discriminate].
  injection Hcd as <-. cbv zeta.
  replace (_ >? _) with true by (symmetry; apply Z.gtb_gt; lia).
  split; [reflexivity|]. split.
  - rewrite length_take. pose proof (newBatchElementsLen_le oldLen).
    unfold newBatchElementsLen in *. subst oldLen newLen. lia.
  - split; [apply newBatchElementsLen_dropped|].
    symmetry. apply take_drop.
Qed.

End EncoderProperties.

(** ** Properties of the range resolver and of the polling loop *)

Section ServiceProperties.

Import Props SequencerFacts BatchSubmitter.

Context {Block BatchElement BatchParams Transaction Receipt : Type}.
Variable c : @Sequencer.Codec Block BatchElement BatchParams.
Variable d : @Sequencer.Driver Block Transaction.
Variable fuel : nat.
Variable s : @Service Transaction Receipt.

(** C3, as the code has it: when the balance read fails the cycle logs the
    error and ends there; it sets no balance gauge, resolves no range, reads
    no nonce and attempts no submission. *)
Theorem balance_failure_ends_the_cycle (e : error) :
  BalanceAt s = Err e ->
  eventLoop_cycle s
    = Some [CallBalanceAt; LogError "unable to get current balance" e].
Proof. intros H. unfold eventLoop_cycle. rewrite H. reflexivity. Qed.

(** C5: with both ledger reads answered, [GetBatchBlockRange] fails with the
    invalid-range error exactly when head + 1 is below committed + offset;
    otherwise it returns that pair, so every returned pair has
    [start <= end]; and a cycle whose range resolution failed this way ends
    without a submission attempt. *)
Theorem GetBatchBlockRange_fails_iff_end_before_start (total head : Z) :
  Sequencer.GetTotalElements d = Ok total ->
  Sequencer.HeaderByNumber d = Ok head ->
  cfg_Driver s = sequencerDriver c d fuel ->
  let start := total + Sequencer.BlockOffset (Sequencer.cfg d) in
  let end_ := head + 1 in
  (snd (Sequencer.GetBatchBlockRange d) = Err (InvalidRange end_ start)
     <-> end_ < start) /\
  (start <= end_ -> snd (Sequencer.GetBatchBlockRange d) = Ok (start, end_)) /\
  (forall start' end', snd (Sequencer.GetBatchBlockRange d) = Ok (start', end')
     -> start' <= end') /\
  (end_ < start ->
   exists tr, eventLoop_cycle s = Some tr /\
              Forall (fun ev => is_SubmissionAttempt ev = false) tr).
Proof.
  intros Htot Hhead Hdrv start end_.
  assert (Hres : Sequencer.GetBatchBlockRange d =
                 ([CallGetTotalElements; CallHeaderByNumber],
                  if start >? end_ then Err (InvalidRange end_ start)
                  else Ok (start, end_))).
  { unfold Sequencer.GetBatchBlockRange. rewrite Htot, Hhead. cbv zeta.
    fold start end_. destruct (start >? end_); reflexivity. }
  rewrite Hres. simpl.
  destruct (start >? end_) eqn:Hcmp.
  - apply Z.gtb_gt in Hcmp. split; [split; [lia|reflexivity]|].
    split; [lia|]. split; [discriminate|]. intros _.
    unfold eventLoop_cycle.
    destruct (BalanceAt s) as [balance|e].
    + rewrite Hdrv. simpl. rewrite Hres.
      replace (start >? end_) with true by (symmetry; apply Z.gtb_gt; lia).
      eexists. split; [reflexivity|]. repeat constructor.
    + eexists. split; [reflexivity|]. repeat constructor.
  - rewrite Z.gtb_ltb in Hcmp. apply Z.ltb_ge in Hcmp.
    split; [split; [discriminate|lia]|].
    split; [reflexivity|]. split; [|lia].
    intros start' end' H. injection H as <- <-. exact Hcmp.
Qed.

(** C4, as the code has it: what [SubmitBatchTx] hands back to [sendTx] is
    the transaction that [RawTransact] returned for the encoded batch and
    nothing else.  The batch covers the [n] heights from [start], with [n]
    possibly short of [end - start]; [sendTx] is not told [n] and its log
    line carries the [end] it was called with. *)
Theorem sendTx_returns_only_the_transaction
    start end_ nonce gasPrice tr tx :
  cfg_Driver s = sequencerDriver c d fuel ->
  sendTx s start end_ nonce gasPrice = Some (tr, Ok tx) ->
  exists (kept : list BatchElement) callData opts tr',
    (length kept <= Z.to_nat (end_ - start))%nat /\
    Forall2 (elementAt c d) (seqZ start (Z.of_nat (length kept))) kept /\
    Sequencer.batchCallData c d (BigInt_Uint64 start) kept = Ok callData /\
    Sequencer.RawTransact d opts callData = Ok tx /\
    tr = tr' ++ [CallRawTransact opts callData;
                 LogSubmitted start end_ nonce gasPrice].
Proof.
  intros Hdrv H. unfold sendTx in H. rewrite Hdrv in H. simpl in H.
  destruct (Sequencer.SubmitBatchTx c d fuel start end_ nonce gasPrice)
    as [[tr0 out]|] eqn:Hsub; [|discriminate].
  destruct (Sequencer.returned out) as [tx'|e] eqn:Hret; [|discriminate].
  injection H as <- <-.
  destruct out as [site e|r]; [discriminate|]. simpl in Hret. subst r.
  apply SubmitBatchTx_transact in Hsub
    as (kept & callData & opts & tr' & Hn & Hf & Hcd & _ & _ & -> & _ & _ & Hr).
  exists kept, callData, opts,
    (LogAttempting start end_ nonce gasPrice
     :: CallSubmitBatchTx start end_ nonce gasPrice :: tr').
  repeat split; auto.
  simpl. rewrite <- app_assoc. reflexivity.
Qed.

End ServiceProperties.

(** ** Runs on the fixtures *)

Module FixtureFacts.

Import Sequencer Props SequencerFacts Fixtures.

Lemma codec_sizes_nonneg (el : BatchElement) :
  0 <= TxLenSize codec + TxSize codec el.
Proof. destruct el as [raw|]; simpl; lia. Qed.

Lemma encoded_holds_sequencerBytes (els : list BatchElement) :
  sequencerBytes codec els
    <= Z.of_nat (length (concat (map encodeElement els))).
Proof.
  induction els as [|[raw|] els IH]; simpl in *.
  - lia.
  - rewrite length_app. lia.
  - lia.
Qed.

Lemma callData_holds_sequencerBytes committed maxTxSize blocks s els callData :
  batchCallData codec (driver committed maxTxSize blocks) s els = Ok callData ->
  sequencerBytes codec els <= Z.of_nat (length callData).
Proof.
  unfold batchCallData. simpl. intros H. injection H as <-.
  pose proof (encoded_holds_sequencerBytes els). simpl. lia.
Qed.

End FixtureFacts.

Section Runs.

Import Sequencer Props SequencerFacts BatchSubmitter Fixtures FixtureFacts.

(** Ceiling 23 over [blocks3]: the three elements serialize to 25 bytes, one
    pruning leaves two and 21 bytes, which are published. *)
Lemma SubmitBatchTx_calldata_within_MaxTxSize_witness :
  exists tr tx,
    Sequencer.SubmitBatchTx codec (driver 0 23 blocks3) 5 0 3 7 1
      = Some (tr, Transact (Ok tx)) /\
    exists opts callData,
      last tr = Some (CallRawTransact opts callData) /\
      Z.of_nat (length callData) <= 23.
Proof.
  eexists. eexists. split; [lazy; reflexivity|].
  destruct (SubmitBatchTx_calldata_within_MaxTxSize
              codec (driver 0 23 blocks3) 5 0 3 7 1 _ _ eq_refl)
    as (opts & callData & _ & _ & _ & Hlast & _ & _ & _ & _ & Hle).
  exists opts, callData. split; [exact Hlast|exact Hle].
Defined.

Lemma batch_covers_contiguous_prefix_witness :
  exists tr r,
    Sequencer.SubmitBatchTx codec (driver 0 23 blocks3) 5 0 3 7 1
      = Some (tr, Transact r) /\
    exists (n : nat) (kept : list BatchElement),
      (n <= 3)%nat /\ length kept = n /\
      forall j : nat, (j < n)%nat ->
        exists el, kept !! j = Some el /\
                   elementAt codec (driver 0 23 blocks3) (0 + Z.of_nat j) el.
Proof.
  eexists. eexists. split; [lazy; reflexivity|].
  destruct (batch_covers_contiguous_prefix
              codec (driver 0 23 blocks3) 5 0 3 7 1 _ _ eq_refl)
    as (n & kept & _ & _ & Hn & Hlen & Hat & _).
  exists n, kept. split; [exact Hn|]. split; [exact Hlen|exact Hat].
Defined.

(** Range [0, 5) over the three blocks of [blocks3]: the fetch of height 3
    fails and the call returns its error. *)
Lemma SubmitBatchTx_error_broadcasts_nothing_witness :
  exists tr e,
    Sequencer.SubmitBatchTx codec (driver 0 100 blocks3) 5 0 5 7 1
      = Some (tr, Abort AtBlockByNumber e) /\
    quiet tr.
Proof.
  eexists. eexists. split; [lazy; reflexivity|].
  exact (SubmitBatchTx_error_broadcasts_nothing
           codec (driver 0 100 blocks3) 5 0 5 7 1 _ _ eq_refl).
Defined.

(** Ceiling 3, below the four bytes of the selector. *)
Lemma shrink_loop_spins_on_oversize_empty_batch_witness :
  oversize codec (driver 0 3 blocks3) 0 [] /\
  newBatchElementsLen (length (@nil BatchElement))
    = length (@nil BatchElement) /\
  forall fuel, shrink codec (driver 0 3 blocks3) fuel 0 7 1 [] = None.
Proof.
  assert (H : oversize codec (driver 0 3 blocks3) 0 []).
  { eexists. split; [reflexivity|]. reflexivity. }
  split; [exact H|].
  exact (shrink_loop_spins_on_oversize_empty_batch
           codec (driver 0 3 blocks3) 0 7 1 H).
Defined.

(** C7, at the defect: with [MaxTxSize = 3] no call data can fit, since the
    selector alone is four bytes; the call over [blocks3] leaves the first
    loop with no element, and the second loop is still running after any
    number of passes: no error is returned and nothing is published. *)
Theorem SubmitBatchTx_never_returns_when_nothing_fits (fuel : nat) :
  Sequencer.SubmitBatchTx codec (driver 0 3 blocks3) fuel 0 3 7 1 = None.
Proof.
  unfold Sequencer.SubmitBatchTx.
  assert (Hacc : accumulate codec (driver 0 3 blocks3) (heights 0 3)
                   (mkAccum [] 0)
                 = ([CallBlockByNumber 0], Ok (mkAccum [] 0)))
    by (vm_compute; reflexivity).
  rewrite Hacc. apply emit_None. apply shrink_spins_on_empty.
  eexists. split; [reflexivity|]. reflexivity.
Qed.

(** Ceiling 19 over five enqueued blocks: 20 bytes of call data, pruned
    from five elements to four, where a tenth of five rounded down is
    none. *)
Lemma pruning_drops_the_fifth_of_five :
  exists tr out,
    Sequencer.SubmitBatchTx codec (driver 0 19 enqueued5) 5 0 5 7 1
      = Some (tr, out) /\
    In (LogPruned 5 4) tr /\ In (LogConstructed 4 19) tr /\
    (5 - 5 / 10)%nat <> 4%nat.
Proof.
  eexists. eexists. split; [vm_compute; reflexivity|].
  split; [simpl; tauto|]. split; [simpl; tauto|]. discriminate.
Qed.

Lemma pruning_keeps_leading_nine_tenths_witness :
  oversize codec (driver 0 19 enqueued5) 0 enqueued5 /\
  shrink codec (driver 0 19 enqueued5) 2 0 7 1 enqueued5
    = emit [LogPruned 5 4]
        (shrink codec (driver 0 19 enqueued5) 1 0 7 1 (take 4 enqueued5)) /\
  length (take 4 enqueued5) = 4%nat.
Proof.
  assert (H : oversize codec (driver 0 19 enqueued5) 0 enqueued5).
  { eexists. split; [reflexivity|]. reflexivity. }
  split; [exact H|].
  destruct (pruning_keeps_leading_nine_tenths
              codec (driver 0 19 enqueued5) 1 0 7 1 enqueued5 H)
    as (Hstep & Hlen & _).
  split; [exact Hstep|exact Hlen].
Defined.

(** One enqueued block: it is kept and the estimate stays at 0, not at the
    3 bytes of a length prefix. *)
Lemma enqueued_element_adds_nothing_to_estimate :
  accumulate codec (driver 0 100 [None]) (heights 0 1) (mkAccum [] 0)
    = ([CallBlockByNumber 0], Ok (mkAccum [None] 0)) /\
  IsSequencerTx codec None = false /\
  TxLenSize codec = 3 /\
  0 <> 0 + TxLenSize codec.
Proof.
  split; [vm_compute; reflexivity|]. split; [reflexivity|].
  split; [reflexivity|]. discriminate.
Qed.

(** A failed balance read: the cycle is two events long and resolves no
    range; with the read answered, the same cycle resolves the range and
    submits. *)
Lemma balance_failure_skips_the_cycle :
  BalanceAt (service (Err (External "rpc")) (driver 0 23 blocks3) 5)
    = Err (External "rpc") /\
  eventLoop_cycle (service (Err (External "rpc")) (driver 0 23 blocks3) 5)
    = Some [CallBalanceAt;
            LogError "unable to get current balance" (External "rpc")] /\
  existsb (fun ev => is_RangeResolution ev || is_SubmissionAttempt ev)
    [CallBalanceAt; LogError "unable to get current balance" (External "rpc")]
    = false /\
  exists tr,
    eventLoop_cycle (service (Ok 10) (driver 0 23 blocks3) 5) = Some tr /\
    existsb is_RangeResolution tr = true /\
    existsb is_SubmissionAttempt tr = true.
Proof.
  split; [reflexivity|]. split; [reflexivity|]. split; [reflexivity|].
  eexists. split; [vm_compute; reflexivity|]. split; reflexivity.
Qed.

Lemma balance_failure_ends_the_cycle_witness :
  BalanceAt (service (Err (External "rpc")) (driver 0 23 blocks3) 5)
    = Err (External "rpc") /\
  eventLoop_cycle (service (Err (External "rpc")) (driver 0 23 blocks3) 5)
    = Some [CallBalanceAt;
            LogError "unable to get current balance" (External "rpc")].
Proof.
  split; [reflexivity|].
  exact (balance_failure_ends_the_cycle
           (service (Err (External "rpc")) (driver 0 23 blocks3) 5)
           (External "rpc") eq_refl).
Defined.

(** Ceiling 23 over [blocks3], range [0, 3): the batch that is published
    holds two elements, heights 0 and 1, so it ends at 2; what [sendTx] gets
    back is the transaction alone, and the end it logs is still 3. *)
Lemma sendTx_is_not_told_the_shrunk_end :
  exists tr tx opts,
    sendTx (service (Ok 10) (driver 0 23 blocks3) 5) 0 3 7 1
      = Some (tr, Ok tx) /\
    In (LogPruned 3 2) tr /\
    In (LogConstructed 2 21) tr /\
    In (CallRawTransact opts tx) tr /\
    last tr = Some (LogSubmitted 0 3 7 1) /\
    0 + 2 <> 3.
Proof.
  eexists. eexists. eexists. split; [vm_compute; reflexivity|].
  split; [simpl; tauto|]. split; [simpl; tauto|].
  split; [simpl; do 7 right; left; reflexivity|].
  split; [reflexivity|]. discriminate.
Qed.

Lemma sendTx_returns_only_the_transaction_witness :
  exists tr tx,
    sendTx (service (Ok 10) (driver 0 23 blocks3) 5) 0 3 7 1
      = Some (tr, Ok tx) /\
    exists (kept : list Fixtures.BatchElement) callData opts tr',
      (length kept <= 3)%nat /\
      Sequencer.RawTransact (driver 0 23 blocks3) opts callData = Ok tx /\
      tr = tr' ++ [CallRawTransact opts callData; LogSubmitted 0 3 7 1].
Proof.
  eexists. eexists. split; [lazy; reflexivity|].
  destruct (sendTx_returns_only_the_transaction
              codec (driver 0 23 blocks3) 5
              (service (Ok 10) (driver 0 23 blocks3) 5)
              0 3 7 1 _ _ eq_refl eq_refl)
    as (kept & callData & opts & tr' & Hn & _ & _ & Hr & Htr).
  exists kept, callData, opts, tr'.
  split; [exact Hn|]. split; [exact Hr|exact Htr].
Defined.

(** Five elements committed on L1 against an L2 head at height 2: the
    range would be [5, 3). *)
Lemma GetBatchBlockRange_fails_iff_end_before_start_witness :
  Sequencer.GetTotalElements (driver 5 100 blocks3) = Ok 5 /\
  Sequencer.HeaderByNumber (driver 5 100 blocks3) = Ok 2 /\
  snd (Sequencer.GetBatchBlockRange (driver 5 100 blocks3))
    = Err (InvalidRange 3 5) /\
  exists tr,
    eventLoop_cycle (service (Ok 10) (driver 5 100 blocks3) 5) = Some tr /\
    Forall (fun ev => is_SubmissionAttempt ev = false) tr.
Proof.
  split; [reflexivity|]. split; [reflexivity|].
  destruct (GetBatchBlockRange_fails_iff_end_before_start
              codec (driver 5 100 blocks3) 5
              (service (Ok 10) (driver 5 100 blocks3) 5)
              5 2 eq_refl eq_refl eq_refl)
    as (Hiff & _ & _ & Hcycle).
  split.
  - apply Hiff. reflexivity.
  - apply Hcycle. reflexivity.
Defined.

End Runs.

(** ** Further facts about the two loops *)

Module LoopFacts.

Import Sequencer Props SequencerFacts.

Section LoopFacts.

Context {Block BatchElement BatchParams Transaction : Type}.
Variable c : @Codec Block BatchElement BatchParams.
Variable d : @Driver Block Transaction.

Lemma emit_nil {A} (m : option (list Event * A)) : emit [] m = m.
Proof. destruct m as [[tr a]|]; reflexivity. Qed.

Lemma emit_emit {A} (evs1 evs2 : list Event) (m : option (list Event * A)) :
  emit evs1 (emit evs2 m) = emit (evs1 ++ evs2) m.
Proof. destruct m as [[tr a]|]; simpl; [rewrite app_assoc|]; reflexivity. Qed.

Lemma quiet_not_In (tr : list Event) opts callData :
  quiet tr -> ~ In (CallRawTransact opts callData) tr.
Proof.
  unfold quiet. rewrite Forall_forall. intros Hq Hin.
  apply list_elem_of_In in Hin. apply Hq in Hin. discriminate.
Qed.

(** A failed first loop: the failing height, what was fetched before it and
    what was not fetched after it. *)
Lemma accumulate_err_at : forall hs st tr e,
  accumulate c d hs st = (tr, Err e) ->
  exists (m : nat) (i : Z),
    nth_error hs m = Some i /\
    BlockByNumber d i = Err e /\
    tr = map CallBlockByNumber (take (S m) hs) /\
    Forall (fun j => exists block, BlockByNumber d j = Ok block) (take m hs).
Proof.
  induction hs as [|i hs IH]; intros st tr e H; simpl in H; [discriminate|].
  destruct (BlockByNumber d i) as [block|e'] eqn:Hblock.
  - assert (Hrec : forall st1 tr1 r1,
              accumulate c d hs st1 = (tr1, r1) ->
              (CallBlockByNumber i :: tr1, r1) = (tr, Err e) ->
              exists (m : nat) (i0 : Z),
                nth_error (i :: hs) m = Some i0 /\
                BlockByNumber d i0 = Err e /\
                tr = map CallBlockByNumber (take (S m) (i :: hs)) /\
                Forall (fun j => exists block, BlockByNumber d j = Ok block)
                  (take m (i :: hs))).
    { intros st1 tr1 r1 Hacc Heq. injection Heq as <- ->.
      apply IH in Hacc as (m & j & Hnth & Hj & -> & Hall).
      exists (S m), j. repeat split; auto.
      simpl. constructor; eauto. }
    destruct (IsSequencerTx c _).
    + destruct (_ >? _); [discriminate|].
      match type of H with context [accumulate c d hs ?st1] =>
        destruct (accumulate c d hs st1) as [tr1 r1] eqn:Hacc end.
      eapply Hrec; eauto.
    + match type of H with context [accumulate c d hs ?st1] =>
        destruct (accumulate c d hs st1) as [tr1 r1] eqn:Hacc end.
      eapply Hrec; eauto.
  - injection H as <- <-. exists 0%nat, i.
    split; [reflexivity|]. split; [exact Hblock|].
    split; [reflexivity|constructor].
Qed.

(** The estimate stays within the ceiling. *)
Lemma accumulate_within : forall hs st tr st',
  0 <= totalTxSize st <= MaxTxSize (cfg d) ->
  accumulate c d hs st = (tr, Ok st') ->
  0 <= totalTxSize st' <= MaxTxSize (cfg d).
Proof.
  induction hs as [|i hs IH]; intros st tr st' Hst H; simpl in H.
  - injection H as <- <-. exact Hst.
  - destruct (BlockByNumber d i) as [block|e]; [|discriminate].
    destruct (IsSequencerTx c _).
    + destruct (_ >? _) eqn:Hcmp; [injection H as <- <-; exact Hst|].
      match type of H with context [accumulate c d hs ?st1] =>
        destruct (accumulate c d hs st1) as [tr1 r1] eqn:Hacc end.
      injection H as <- ->. eapply IH; [|exact Hacc]. simpl.
      rewrite Z.gtb_ltb in Hcmp. apply Z.ltb_ge in Hcmp.
      split; [|exact Hcmp]. apply Z.mod_pos_bound. lia.
    + match type of H with context [accumulate c d hs ?st1] =>
        destruct (accumulate c d hs st1) as [tr1 r1] eqn:Hacc end.
      injection H as <- ->. eapply IH; [|exact Hacc]. exact Hst.
Qed.

(** Heights that hold no sequencer transaction are all taken, whatever the
    ceiling. *)
Lemma accumulate_enqueued : forall hs st,
  Forall (fun i => exists el, elementAt c d i el /\ IsSequencerTx c el = false)
    hs ->
  exists added,
    accumulate c d hs st
      = (map CallBlockByNumber hs,
         Ok (mkAccum (batchElements st ++ added) (totalTxSize st))) /\
    Forall2 (elementAt c d) hs added.
Proof.
  induction hs as [|i hs IH]; intros st Hall.
  - exists []. rewrite app_nil_r. destruct st. split; [reflexivity|constructor].
  - inversion Hall as [|? ? (el & (block & Hblock & ->) & Hseq) Hall']; subst.
    simpl. rewrite Hblock, Hseq.
    destruct (IH (mkAccum (batchElements st
                           ++ [BatchElementFromBlock c block])
                          (totalTxSize st)) Hall')
      as (added & -> & Hf).
    exists (BatchElementFromBlock c block :: added). simpl.
    rewrite <- app_assoc. split; [reflexivity|].
    constructor; [exists block; auto|exact Hf].
Qed.

(** Events of the two loops. *)
Lemma accumulate_events : forall hs st,
  Forall (fun ev => is_EncoderEvent ev = true) (fst (accumulate c d hs st)).
Proof.
  induction hs as [|i hs IH]; intros st; simpl; [constructor|].
  destruct (BlockByNumber d i) as [block|e]; [|repeat constructor].
  destruct (IsSequencerTx c _).
  - destruct (_ >? _); [repeat constructor|].
    match goal with |- context [accumulate c d hs ?st'] =>
      specialize (IH st'); destruct (accumulate c d hs st') as [tr r] end.
    constructor; auto.
  - match goal with |- context [accumulate c d hs ?st'] =>
      specialize (IH st'); destruct (accumulate c d hs st') as [tr r] end.
    constructor; auto.
Qed.

Lemma shrink_events fuel s n g : forall (elems : list BatchElement) tr out,
  shrink c d fuel s n g elems = Some (tr, out) ->
  Forall (fun ev => is_EncoderEvent ev = true) tr.
Proof.
  induction fuel as [|fuel IH]; intros elems tr out H; [discriminate|].
  rewrite shrink_S in H.
  destruct (GenSequencerBatchParams c s (BlockOffset (cfg d)) elems)
    as [params|e]; [|injection H as <- <-; constructor].
  destruct (Serialize c params) as [args|e];
    [|injection H as <- <-; constructor].
  cbv zeta in H. destruct (_ >? _).
  - apply emit_Some in H as (tr' & H & ->). apply IH in H.
    constructor; auto.
  - destruct (NewKeyedTransactorWithChainID d);
      injection H as <- <-; repeat constructor.
Qed.

(** The second loop does the same passes whatever the nonce and the gas
    price; only the options of the final call differ. *)
Lemma shrink_reprice fuel s n g n' g' :
  forall (elems : list BatchElement) tr r,
  shrink c d fuel s n g elems = Some (tr, Transact r) ->
  exists tr0 opts0 callData,
    NewKeyedTransactorWithChainID d = Ok opts0 /\
    tr = tr0 ++ [CallRawTransact (mkOpts (From opts0) (Some n) (Some g))
                   callData] /\
    r = RawTransact d (mkOpts (From opts0) (Some n) (Some g)) callData /\
    shrink c d fuel s n' g' elems
      = Some (tr0 ++ [CallRawTransact
                        (mkOpts (From opts0) (Some n') (Some g')) callData],
              Transact
                (RawTransact d (mkOpts (From opts0) (Some n') (Some g'))
                   callData)).
Proof.
  induction fuel as [|fuel IH]; intros elems tr r H; [discriminate|].
  rewrite shrink_S in H. rewrite shrink_S.
  destruct (GenSequencerBatchParams c s (BlockOffset (cfg d)) elems)
    as [params|e]; [|discriminate].
  destruct (Serialize c params) as [args|e]; [|discriminate].
  cbv zeta in *. destruct (_ >? _).
  - apply emit_Some in H as (tr' & H & ->).
    apply IH in H as (tr0 & opts0 & callData & Hopts & -> & -> & ->).
    exists (LogPruned (length elems) (newBatchElementsLen (length elems))
            :: tr0), opts0, callData.
    repeat split; auto.
  - destruct (NewKeyedTransactorWithChainID d) as [opts0|e]; [|discriminate].
    injection H as <- <-.
    exists [LogConstructed (length elems)
              (length (appendSequencerBatchID d ++ args))],
      opts0, (appendSequencerBatchID d ++ args).
    repeat split; auto.
Qed.

(** Every sequencer element the first loop keeps leaves the estimate
    within the ceiling. *)
Lemma accumulate_kept_within : forall hs st tr st',
  accumulate c d hs st = (tr, Ok st') ->
  exists added,
    batchElements st' = batchElements st ++ added /\
    forall (j : nat) el,
      added !! j = Some el -> IsSequencerTx c el = true ->
      estimate c (totalTxSize st) (take (S j) added) <= MaxTxSize (cfg d).
Proof.
  induction hs as [|i hs IH]; intros st tr st' H; simpl in H.
  - injection H as <- <-. exists []. rewrite app_nil_r.
    split; [reflexivity|]. intros j el Hj. discriminate.
  - destruct (BlockByNumber d i) as [block|e]; [|discriminate].
    set (el0 := BatchElementFromBlock c block) in *.
    destruct (IsSequencerTx c el0) eqn:Hseq.
    + destruct (_ >? _) eqn:Hcmp.
      * injection H as <- <-. exists []. rewrite app_nil_r.
        split; [reflexivity|]. intros j el Hj. discriminate.
      * match type of H with context [accumulate c d hs ?st1] =>
          destruct (accumulate c d hs st1) as [tr1 r1] eqn:Hacc end.
        injection H as <- ->.
        apply IH in Hacc as (added & Hb & Hin). simpl in Hb, Hin.
        exists (el0 :: added).
        split; [rewrite Hb, <- app_assoc; reflexivity|].
        rewrite Z.gtb_ltb in Hcmp. apply Z.ltb_ge in Hcmp.
        intros [|j] el Hj Hel; simpl in Hj.
        -- change (take 1 (el0 :: added)) with [el0].
           unfold estimate. simpl. unfold addToEstimate.
           rewrite Hseq. exact Hcmp.
        -- specialize (Hin j el Hj Hel).
           change (take (S (S j)) (el0 :: added))
             with (el0 :: take (S j) added).
           unfold estimate in *. simpl. unfold addToEstimate at 2.
           rewrite Hseq. exact Hin.
    + match type of H with context [accumulate c d hs ?st1] =>
        destruct (accumulate c d hs st1) as [tr1 r1] eqn:Hacc end.
      injection H as <- ->.
      apply IH in Hacc as (added & Hb & Hin). simpl in Hb, Hin.
      exists (el0 :: added).
      split; [rewrite Hb, <- app_assoc; reflexivity|].
      intros [|j] el Hj Hel; simpl in Hj.
      -- injection Hj as <-. congruence.
      -- specialize (Hin j el Hj Hel).
         change (take (S (S j)) (el0 :: added))
           with (el0 :: take (S j) added).
         unfold estimate in *. simpl. unfold addToEstimate at 2.
         rewrite Hseq. exact Hin.
Qed.

End LoopFacts.

End LoopFacts.

(** ** The running estimate against the serialized size *)

Module SpecCodecFacts.

Import Sequencer Props.

Lemma length_lengthPrefix (width : nat) : forall n,
  length (SpecCodec.lengthPrefix width n) = width.
Proof.
  induction width as [|width IH]; intros n; simpl; [reflexivity|].
  rewrite length_app, IH. simpl. lia.
Qed.

Section SpecCodecFacts.

Context {Block : Type}.
Variable width : nat.
Variable overhead : SpecCodec.BatchParams -> list byte.
Variable fromBlock : Block -> SpecCodec.BatchElement.

Lemma sizes_nonneg (el : SpecCodec.BatchElement) :
  0 <= TxLenSize (SpecCodec.codec width overhead fromBlock)
       + TxSize (SpecCodec.codec width overhead fromBlock) el.
Proof. simpl. unfold SpecCodec.TxSize. destruct (SpecCodec.Tx el); lia. Qed.

Lemma encoded_length (els : list SpecCodec.BatchElement) :
  Z.of_nat (length (concat (map (SpecCodec.encodeTx width) els)))
    = sequencerBytes (SpecCodec.codec width overhead fromBlock) els.
Proof.
  induction els as [|el els IH]; [reflexivity|].
  change (sequencerBytes (SpecCodec.codec width overhead fromBlock)
            (el :: els))
    with (if SpecCodec.IsSequencerTx el
          then Z.of_nat width + SpecCodec.TxSize el
               + sequencerBytes (SpecCodec.codec width overhead fromBlock) els
          else sequencerBytes (SpecCodec.codec width overhead fromBlock) els).
  cbn [map concat]. rewrite length_app, Nat2Z.inj_add, IH.
  unfold SpecCodec.encodeTx, SpecCodec.IsSequencerTx, SpecCodec.TxSize.
  destruct (SpecCodec.Tx el) as [raw|].
  - rewrite length_app, length_lengthPrefix. lia.
  - simpl. lia.
Qed.

End SpecCodecFacts.

End SpecCodecFacts.

Section EstimateProperties.

Import Sequencer Props SequencerFacts LoopFacts SpecCodecFacts.

Context {Block Transaction : Type}.
Variable width : nat.
Variable overhead : SpecCodec.BatchParams -> list byte.
Variable fromBlock : Block -> SpecCodec.BatchElement.
Variable d : @Driver Block Transaction.

(** C8, as the code has it: the running estimate counts sequencer elements
    only, each with its length prefix and its transaction size, in [uint64]
    arithmetic, and an enqueued element adds nothing.  Every sequencer
    element that is kept leaves the estimate at or below [MaxTxSize]; the
    loop keeps the elements of the leading heights and stops either after
    the last height or at the first sequencer element that would take the
    estimate over [MaxTxSize], fetching nothing after it.  The call data of
    the accumulated elements, which is the selector, the grouping and
    context overhead and the prefixed transactions, is at least as long as
    the estimate. *)
Theorem running_estimate_counts_sequencer_elements start end_ tr st :
  let c := SpecCodec.codec width overhead fromBlock in
  accumulate c d (heights start end_) (mkAccum [] 0) = (tr, Ok st) ->
  totalTxSize st = estimate c 0 (batchElements st) /\
  (forall t el, IsSequencerTx c el = false -> addToEstimate c t el = t) /\
  (forall t el, IsSequencerTx c el = true ->
     addToEstimate c t el = uint64 (t + uint64 (TxLenSize c + TxSize c el))) /\
  (forall (j : nat) el,
     batchElements st !! j = Some el -> IsSequencerTx c el = true ->
     estimate c 0 (take (S j) (batchElements st)) <= MaxTxSize (cfg d)) /\
  Forall2 (elementAt c d)
    (take (length (batchElements st)) (heights start end_))
    (batchElements st) /\
  ((length (batchElements st) = length (heights start end_) /\
    tr = map CallBlockByNumber (heights start end_)) \/
   (exists i el,
      nth_error (heights start end_) (length (batchElements st)) = Some i /\
      elementAt c d i el /\ IsSequencerTx c el = true /\
      uint64 (totalTxSize st + uint64 (TxLenSize c + TxSize c el))
        > MaxTxSize (cfg d) /\
      tr = map CallBlockByNumber
             (take (S (length (batchElements st))) (heights start end_)))) /\
  (forall callData,
     batchCallData c d (BigInt_Uint64 start) (batchElements st) = Ok callData ->
     totalTxSize st <= Z.of_nat (length callData)).
Proof.
  intros c Hacc.
  pose proof (accumulate_kept_within c d _ _ _ _ Hacc) as (added' & Hb' & Hin).
  apply accumulate_ok in Hacc as (k & added & Hk & Hb & Hf & Ht & Hstop).
  simpl in Hb, Hb', Ht, Hin. subst added added'.
  assert (Hlen : length (batchElements st) = k).
  { apply Forall2_length in Hf. rewrite length_take in Hf. lia. }
  split; [exact Ht|].
  split; [intros t el Hel; unfold addToEstimate; rewrite Hel; reflexivity|].
  split; [intros t el Hel; unfold addToEstimate; rewrite Hel; reflexivity|].
  split; [exact Hin|].
  rewrite Hlen. split; [exact Hf|]. split.
  - destruct Hstop as [[-> ->]|(i & el & Hi & Hat & Hs & Hgt & ->)];
      [left; auto|right; exists i, el; auto].
  - intros callData Hcd. unfold batchCallData in Hcd. simpl in Hcd.
    injection Hcd as <-.
    pose proof (estimate_le c (batchElements st) 0
                  (sizes_nonneg width overhead fromBlock) ltac:(lia)) as Hle.
    rewrite <- Ht in Hle.
    rewrite !length_app, !Nat2Z.inj_add.
    rewrite (encoded_length width overhead fromBlock). fold c. lia.
Qed.

End EstimateProperties.

Section EstimateRuns.

Import Sequencer Props Fixtures.

(** Ceiling 8 over [blocks3], prefix of 3 bytes: the first transaction
    brings the estimate to 5, the enqueued block leaves it there, and the
    third block, which would bring it to 9, stops the loop. *)
Lemma running_estimate_counts_sequencer_elements_witness :
  exists tr st,
    accumulate
      (SpecCodec.codec 3 (fun _ => repeat x00 11) SpecCodec.fromFixtureBlock)
      (driver 0 8 blocks3) (heights 0 3) (mkAccum [] 0) = (tr, Ok st) /\
    totalTxSize st = 5 /\
    length (batchElements st) = 2%nat /\
    tr = map CallBlockByNumber [0; 1; 2] /\
    forall callData,
      batchCallData
        (SpecCodec.codec 3 (fun _ => repeat x00 11) SpecCodec.fromFixtureBlock)
        (driver 0 8 blocks3) (BigInt_Uint64 0) (batchElements st)
        = Ok callData ->
      totalTxSize st <= Z.of_nat (length callData).
Proof.
  eexists. eexists. split; [lazy; reflexivity|].
  split; [reflexivity|]. split; [reflexivity|]. split; [reflexivity|].
  destruct (running_estimate_counts_sequencer_elements
              3 (fun _ => repeat x00 11) SpecCodec.fromFixtureBlock
              (driver 0 8 blocks3) 0 3 _ _ eq_refl)
    as (_ & _ & _ & _ & _ & _ & Hle).
  exact Hle.
Defined.

End EstimateRuns.

(** ** More properties of the encoder *)

Section EncoderExtras.

Import Sequencer Props SequencerFacts LoopFacts.

Context {Block BatchElement BatchParams Transaction : Type}.
Variable c : @Codec Block BatchElement BatchParams.
Variable d : @Driver Block Transaction.

Lemma nth_error_lookup {A} (l : list A) (n : nat) : nth_error l n = l !! n.
Proof.
  revert n. induction l as [|x l IH]; intros [|n]; simpl; auto.
Qed.

Lemma iter_prune_le (n k : nat) :
  (Nat.iter k newBatchElementsLen n <= n - k)%nat.
Proof.
  induction k as [|k IH]; [simpl; lia|].
  change (Nat.iter (S k) newBatchElementsLen n)
    with (newBatchElementsLen (Nat.iter k newBatchElementsLen n)).
  set (m := Nat.iter k newBatchElementsLen n) in *.
  destruct m as [|m]; [rewrite newBatchElementsLen_0; lia|].
  pose proof (newBatchElementsLen_lt (S m) ltac:(lia)). lia.
Qed.

(** X1: unless the call data of the empty batch is itself over
    [MaxTxSize], [SubmitBatchTx] returns, after at most one pass of the
    second loop per height of the range plus one. *)
Theorem SubmitBatchTx_returns_when_empty_batch_fits
    fuel start end_ nonce gasPrice :
  ~ oversize c d (BigInt_Uint64 start) [] ->
  (Z.to_nat (end_ - start) < fuel)%nat ->
  exists tr out,
    SubmitBatchTx c d fuel start end_ nonce gasPrice = Some (tr, out).
Proof.
  intros Hempty Hfuel. unfold SubmitBatchTx.
  destruct (accumulate c d (heights start end_) (mkAccum [] 0))
    as [tr [st|e]] eqn:Hacc; [|eauto].
  apply accumulate_ok in Hacc as (k & added & Hk & Hb & Hf & _ & _).
  simpl in Hb. subst added.
  apply Forall2_length in Hf. rewrite length_take in Hf.
  unfold heights in Hk, Hf. rewrite length_seqZ in Hk, Hf.
  destruct (shrink_terminates c d (BigInt_Uint64 start) nonce gasPrice
              fuel (batchElements st) Hempty)
    as (tr2 & out & ->); [lia|].
  simpl. eauto.
Qed.

(** X2: a pruning takes at least one element off a non-empty batch, [k]
    prunings leave at most [(9/10)^k] of [n] elements, and [n] prunings
    leave none. *)
Theorem pruning_shrinks_every_nonempty_batch (n k : nat) :
  (newBatchElementsLen (S n) <= n)%nat /\
  (Nat.iter k newBatchElementsLen n * 10 ^ k <= n * 9 ^ k)%nat /\
  Nat.iter n newBatchElementsLen n = 0%nat.
Proof.
  split; [pose proof (newBatchElementsLen_lt (S n) ltac:(lia)); lia|].
  split; [apply prune_geometric|].
  pose proof (iter_prune_le n n). lia.
Qed.

(** X3: on an empty or inverted range no block is fetched and the second
    loop starts from the empty batch. *)
Theorem empty_range_fetches_no_block fuel start end_ nonce gasPrice :
  end_ <= start ->
  SubmitBatchTx c d fuel start end_ nonce gasPrice
    = shrink c d fuel (BigInt_Uint64 start) nonce gasPrice [].
Proof.
  intros Hle. unfold SubmitBatchTx, heights.
  rewrite seqZ_nil by lia. simpl. apply emit_nil.
Qed.

(** X4: a call that returns the error of a block fetch has fetched the
    heights from [start] up to the failing one, in order, each of the
    earlier ones with success, and has done nothing else; the error is the
    client's, unchanged. *)
Theorem SubmitBatchTx_stops_at_first_failed_fetch
    fuel start end_ nonce gasPrice tr e :
  SubmitBatchTx c d fuel start end_ nonce gasPrice
    = Some (tr, Abort AtBlockByNumber e) ->
  exists m : nat,
    start + Z.of_nat m < end_ /\
    BlockByNumber d (start + Z.of_nat m) = Err e /\
    tr = map CallBlockByNumber (seqZ start (Z.of_nat (S m))) /\
    forall j : nat, (j < m)%nat ->
      exists block, BlockByNumber d (start + Z.of_nat j) = Ok block.
Proof.
  intros H. apply SubmitBatchTx_returns in H
    as [(e' & Hacc & Heq)|(tr1 & tr2 & st & _ & Hshr & _)].
  2:{ apply shrink_returns in Hshr as (? & ? & _ & _ & Hsite & _).
      congruence. }
  injection Heq as <-.
  apply accumulate_err_at in Hacc as (m & i & Hnth & Hi & -> & Hall).
  rewrite nth_error_lookup in Hnth. unfold heights in Hnth.
  apply lookup_seqZ in Hnth as [-> Hm].
  exists m. split; [lia|]. split; [exact Hi|]. split.
  - rewrite (take_heights start end_).
    + reflexivity.
    + unfold heights. rewrite length_seqZ. lia.
  - intros j Hj. rewrite (take_heights start end_) in Hall
      by (unfold heights; rewrite length_seqZ; lia).
    rewrite Forall_seqZ in Hall. apply Hall. lia.
Qed.

(** X5: when the call data of everything the first loop accumulated fits,
    nothing is pruned: the whole batch is published in the first pass. *)
Theorem fitting_batch_is_published_unpruned
    fuel start end_ nonce gasPrice tr st callData opts0 :
  accumulate c d (heights start end_) (mkAccum [] 0) = (tr, Ok st) ->
  batchCallData c d (BigInt_Uint64 start) (batchElements st) = Ok callData ->
  Z.of_nat (length callData) <= MaxTxSize (cfg d) ->
  NewKeyedTransactorWithChainID d = Ok opts0 ->
  SubmitBatchTx c d (S fuel) start end_ nonce gasPrice
    = Some (tr ++ [LogConstructed (length (batchElements st))
                     (length callData);
                   CallRawTransact
                     (mkOpts (From opts0) (Some nonce) (Some gasPrice))
                     callData],
            Transact
              (RawTransact d
                 (mkOpts (From opts0) (Some nonce) (Some gasPrice))
                 callData)).
Proof.
  intros Hacc Hcd Hle Hopts. unfold SubmitBatchTx. rewrite Hacc.
  rewrite shrink_S. unfold batchCallData in Hcd.
  destruct (GenSequencerBatchParams c (BigInt_Uint64 start)
              (BlockOffset (cfg d)) (batchElements st))
    as [params|]; [|discriminate].
  destruct (Serialize c params) as [args|]; [|discriminate].
  injection Hcd as <-. cbv zeta.
  replace (_ >? _) with false
    by (symmetry; rewrite Z.gtb_ltb; apply Z.ltb_ge; lia).
  rewrite Hopts. reflexivity.
Qed.

(** X6: with a non-negative ceiling, the running estimate the first loop
    ends with lies between 0 and [MaxTxSize]. *)
Theorem estimate_never_exceeds_MaxTxSize start end_ tr st :
  0 <= MaxTxSize (cfg d) ->
  accumulate c d (heights start end_) (mkAccum [] 0) = (tr, Ok st) ->
  0 <= totalTxSize st <= MaxTxSize (cfg d).
Proof.
  intros Hmax Hacc. eapply accumulate_within; [|exact Hacc]. simpl. lia.
Qed.

(** X7: when the block at [start] holds a sequencer transaction whose
    length prefix and size alone are over [MaxTxSize], the first loop keeps
    nothing, fetches nothing further, and the second loop starts from the
    empty batch. *)
Theorem oversize_first_transaction_leaves_empty_batch
    fuel start end_ nonce gasPrice block :
  start < end_ ->
  BlockByNumber d start = Ok block ->
  IsSequencerTx c (BatchElementFromBlock c block) = true ->
  uint64 (0 + uint64 (TxLenSize c + TxSize c (BatchElementFromBlock c block)))
    > MaxTxSize (cfg d) ->
  SubmitBatchTx c d fuel start end_ nonce gasPrice
    = emit [CallBlockByNumber start]
        (shrink c d fuel (BigInt_Uint64 start) nonce gasPrice []).
Proof.
  intros Hlt Hblock Hseq Hgt. unfold SubmitBatchTx, heights.
  rewrite seqZ_cons by lia. simpl. rewrite Hblock, Hseq.
  replace (_ >? _) with true by (symmetry; apply Z.gtb_gt; exact Hgt).
  reflexivity.
Qed.

(** X8: a range whose blocks hold no sequencer transaction is accumulated
    whole, one element per height, with the estimate still at 0, whatever
    [MaxTxSize] is. *)
Theorem enqueued_only_range_is_taken_whole start end_ :
  (forall i, start <= i < end_ ->
     exists el, elementAt c d i el /\ IsSequencerTx c el = false) ->
  exists kept : list BatchElement,
    accumulate c d (heights start end_) (mkAccum [] 0)
      = (map CallBlockByNumber (heights start end_), Ok (mkAccum kept 0)) /\
    length kept = Z.to_nat (end_ - start) /\
    Forall2 (elementAt c d) (heights start end_) kept.
Proof.
  intros Hall.
  destruct (accumulate_enqueued c d (heights start end_) (mkAccum [] 0))
    as (added & Hacc & Hf).
  { unfold heights. apply Forall_seqZ. intros i Hi. apply Hall. lia. }
  exists added. simpl in Hacc. split; [exact Hacc|]. split; [|exact Hf].
  apply Forall2_length in Hf. unfold heights in Hf.
  rewrite length_seqZ in Hf. lia.
Qed.

(** X9: whatever [SubmitBatchTx] publishes, it publishes with the nonce and
    the gas price it was called with, from the account of the keyed
    transactor. *)
Theorem published_transaction_carries_callers_nonce_and_gasPrice
    fuel start end_ nonce gasPrice tr out opts callData :
  SubmitBatchTx c d fuel start end_ nonce gasPrice = Some (tr, out) ->
  In (CallRawTransact opts callData) tr ->
  Nonce opts = Some nonce /\ GasPrice opts = Some gasPrice /\
  exists opts0,
    NewKeyedTransactorWithChainID d = Ok opts0 /\ From opts = From opts0.
Proof.
  intros H Hin. apply SubmitBatchTx_returns in H
    as [(e & Hacc & _)|(tr1 & tr2 & st & Hacc & Hshr & ->)].
  - pose proof (accumulate_quiet c d (heights start end_) (mkAccum [] 0)) as Hq.
    rewrite Hacc in Hq. exfalso. exact (quiet_not_In _ _ _ Hq Hin).
  - pose proof (accumulate_quiet c d (heights start end_) (mkAccum [] 0)) as Hq.
    rewrite Hacc in Hq. simpl in Hq.
    apply in_app_or in Hin as [Hin|Hin];
      [exfalso; exact (quiet_not_In _ _ _ Hq Hin)|].
    apply shrink_returns in Hshr as (k & logs & _ & Hq2 & Hout).
    destruct out as [site e|r].
    + destruct Hout as [_ ->]. exfalso. exact (quiet_not_In _ _ _ Hq2 Hin).
    + destruct Hout as (callData' & opts0 & _ & _ & Hopts & -> & _).
      apply in_app_or in Hin as [Hin|Hin];
        [exfalso; exact (quiet_not_In _ _ _ Hq2 Hin)|].
      destruct Hin as [Hin|[Hin|[]]]; [discriminate|].
      injection Hin as <- <-. simpl. eauto.
Qed.

(** X10: a second call over the same ledger with another nonce and gas
    price goes through the same fetches and prunings and publishes the same
    call data; only the options of the publication differ. *)
Theorem repricing_rebuilds_the_same_call_data
    fuel start end_ nonce gasPrice nonce' gasPrice' tr r :
  SubmitBatchTx c d fuel start end_ nonce gasPrice = Some (tr, Transact r) ->
  exists tr0 opts opts' callData,
    tr = tr0 ++ [CallRawTransact opts callData] /\
    SubmitBatchTx c d fuel start end_ nonce' gasPrice'
      = Some (tr0 ++ [CallRawTransact opts' callData],
              Transact (RawTransact d opts' callData)) /\
    From opts' = From opts /\
    Nonce opts' = Some nonce' /\ GasPrice opts' = Some gasPrice'.
Proof.
  intros H. apply SubmitBatchTx_returns in H
    as [(e & _ & Habs)|(tr1 & tr2 & st & Hacc & Hshr & ->)]; [discriminate|].
  apply (shrink_reprice c d fuel _ nonce gasPrice nonce' gasPrice') in Hshr
    as (tr0 & opts0 & callData & _ & -> & _ & Hshr').
  exists (tr1 ++ tr0),
    (mkOpts (From opts0) (Some nonce) (Some gasPrice)),
    (mkOpts (From opts0) (Some nonce') (Some gasPrice')), callData.
  split; [rewrite app_assoc; reflexivity|]. split.
  - unfold SubmitBatchTx. rewrite Hacc, Hshr'. simpl.
    rewrite app_assoc. reflexivity.
  - repeat split.
Qed.

End EncoderExtras.

(** ** More properties of the range resolver and of the polling loop *)

Section ServiceExtras.

Import Props SequencerFacts LoopFacts BatchSubmitter.

Context {Block BatchElement BatchParams Transaction Receipt : Type}.
Variable c : @Sequencer.Codec Block BatchElement BatchParams.
Variable d : @Sequencer.Driver Block Transaction.
Variable fuel : nat.
Variable s : @Service Transaction Receipt.

Lemma GetBatchBlockRange_reads :
  fst (Sequencer.GetBatchBlockRange d) = [CallGetTotalElements] \/
  fst (Sequencer.GetBatchBlockRange d)
    = [CallGetTotalElements; CallHeaderByNumber].
Proof.
  unfold Sequencer.GetBatchBlockRange.
  destruct (Sequencer.GetTotalElements d); [|auto].
  destruct (Sequencer.HeaderByNumber d); [|auto].
  cbv zeta. destruct (_ >? _); auto.
Qed.

Lemma SubmitBatchTx_events start end_ nonce gasPrice tr out :
  Sequencer.SubmitBatchTx c d fuel start end_ nonce gasPrice = Some (tr, out) ->
  Forall (fun ev => is_EncoderEvent ev = true) tr.
Proof.
  intros H. apply SubmitBatchTx_returns in H
    as [(e & Hacc & _)|(tr1 & tr2 & st & Hacc & Hshr & ->)].
  - pose proof (accumulate_events c d (Sequencer.heights start end_)
                  (Sequencer.mkAccum [] 0)) as Hev.
    rewrite Hacc in Hev. exact Hev.
  - pose proof (accumulate_events c d (Sequencer.heights start end_)
                  (Sequencer.mkAccum [] 0)) as Hev.
    rewrite Hacc in Hev. apply Forall_app. split; [exact Hev|].
    eapply shrink_events; eauto.
Qed.

(** X11: [GetBatchBlockRange] returns a range exactly when both ledger
    reads are answered and committed + offset is at most head + 1, and the
    range is then that pair; and when the L1 read fails it returns that
    error without asking the L2 client for its head. *)
Theorem GetBatchBlockRange_succeeds_iff (start end_ : Z) :
  (snd (Sequencer.GetBatchBlockRange d) = Ok (start, end_) <->
   exists total head,
     Sequencer.GetTotalElements d = Ok total /\
     Sequencer.HeaderByNumber d = Ok head /\
     start = total + Sequencer.BlockOffset (Sequencer.cfg d) /\
     end_ = head + 1 /\ start <= end_) /\
  (forall e, Sequencer.GetTotalElements d = Err e ->
     Sequencer.GetBatchBlockRange d = ([CallGetTotalElements], Err e)).
Proof.
  unfold Sequencer.GetBatchBlockRange. split.
  - destruct (Sequencer.GetTotalElements d) as [total|e].
    2:{ simpl. split; [discriminate|].
        intros (? & ? & ? & _); discriminate. }
    destruct (Sequencer.HeaderByNumber d) as [head|e].
    2:{ simpl. split; [discriminate|].
        intros (? & ? & _ & ? & _); discriminate. }
    cbv zeta. destruct (_ >? _) eqn:Hcmp; simpl.
    + apply Z.gtb_gt in Hcmp. split; [discriminate|].
      intros (t & h & Ht & Hh & -> & -> & Hle).
      injection Ht as <-. injection Hh as <-. lia.
    + rewrite Z.gtb_ltb in Hcmp. apply Z.ltb_ge in Hcmp. split.
      * intros H. injection H as <- <-. eauto 8.
      * intros (t & h & Ht & Hh & -> & -> & _).
        injection Ht as <-. injection Hh as <-. reflexivity.
  - intros e He. rewrite He. reflexivity.
Qed.

(** X12: a cycle over the sequencer driver that ends calls the transaction
    manager exactly when the balance read was answered, the range resolved
    to a non-empty one and the nonce read was answered. *)
Theorem Send_is_reached_iff_range_and_nonce_resolve (tr : list Event) :
  cfg_Driver s = sequencerDriver c d fuel ->
  eventLoop_cycle s = Some tr ->
  (In CallSend tr <->
   exists balance start end_ nonce,
     BalanceAt s = Ok balance /\
     snd (Sequencer.GetBatchBlockRange d) = Ok (start, end_) /\
     start <> end_ /\ NonceAt s = Ok nonce).
Proof.
  intros Hdrv H. unfold eventLoop_cycle in H. rewrite Hdrv in H. simpl in H.
  destruct (BalanceAt s) as [balance|e].
  2:{ injection H as <-. split.
      - simpl. intros [?|[?|[]]]; discriminate.
      - intros (? & ? & ? & ? & ? & _); discriminate. }
  pose proof GetBatchBlockRange_reads as Hreads.
  destruct (Sequencer.GetBatchBlockRange d) as [tr1 [[start end_]|e]];
    simpl in Hreads.
  2:{ injection H as <-. split.
      - destruct Hreads as [-> | ->]; simpl; intuition discriminate.
      - intros (? & ? & ? & ? & _ & ? & _); discriminate. }
  destruct (start =? end_) eqn:Heq.
  { apply Z.eqb_eq in Heq. injection H as <-. split.
    - destruct Hreads as [-> | ->]; simpl; intuition discriminate.
    - intros (? & ? & ? & ? & _ & Hr & Hne & _).
      simpl in Hr. injection Hr as <- <-. contradiction. }
  apply Z.eqb_neq in Heq.
  destruct (NonceAt s) as [nonce|e].
  2:{ injection H as <-. split.
      - destruct Hreads as [-> | ->]; simpl; intuition discriminate.
      - intros (? & ? & ? & ? & _ & _ & _ & ?); discriminate. }
  split.
  - intros _. exists balance, start, end_, nonce. auto.
  - intros _.
    destruct (Send s _) as [[tr3 [receipt|e]]|]; [| |discriminate];
      injection H as <-; simpl; rewrite !in_app_iff; simpl; tauto.
Qed.


(** A cycle fails to end only inside the transaction manager: the
    balance, the range and the nonce were read, the range was not empty,
    and [Send] did not return. *)
Theorem cycle_hangs_only_inside_Send :
  eventLoop_cycle s = None <->
  exists balance tr1 start end_ nonce,
    BalanceAt s = Ok balance /\
    GetBatchBlockRange (cfg_Driver s) = (tr1, Ok (start, end_)) /\
    start <> end_ /\ NonceAt s = Ok nonce /\
    Send s (sendTx s start end_ nonce) = None.
Proof.
  unfold eventLoop_cycle.
  destruct (BalanceAt s) as [balance|e].
  2:{ split; [discriminate|]. intros (? & ? & ? & ? & ? & ? & _).
      discriminate. }
  destruct (GetBatchBlockRange (cfg_Driver s)) as [tr1 [[start end_]|e]].
  2:{ split; [discriminate|]. intros (? & ? & ? & ? & ? & _ & ? & _).
      discriminate. }
  destruct (start =? end_) eqn:Heq.
  { apply Z.eqb_eq in Heq. split; [discriminate|].
    intros (? & ? & ? & ? & ? & _ & Hr & Hne & _).
    injection Hr as _ <- <-. contradiction. }
  apply Z.eqb_neq in Heq.
  destruct (NonceAt s) as [nonce|e].
  2:{ split; [discriminate|]. intros (? & ? & ? & ? & ? & _ & _ & _ & ? & _).
      discriminate. }
  destruct (Send s (sendTx s start end_ nonce)) as [[tr3 [receipt|e]]|] eqn:Hs.
  - split; [discriminate|].
    intros (? & ? & ? & ? & ? & _ & Hr & _ & Hn & Hnone).
    injection Hr as _ <- <-. injection Hn as <-. congruence.
  - split; [discriminate|].
    intros (? & ? & ? & ? & ? & _ & Hr & _ & Hn & Hnone).
    injection Hr as _ <- <-. injection Hn as <-. congruence.
  - split; [|reflexivity]. intros _.
    exists balance, tr1, start, end_, nonce. auto.
Qed.


(** X14: over the sequencer driver, [sendTx] hands back what
    [SubmitBatchTx] returned, starts its trace with the attempt log line
    and the call, and logs the submission exactly when a transaction came
    back. *)
Theorem sendTx_logs_submitted_iff_published
    start end_ nonce gasPrice tr r :
  cfg_Driver s = sequencerDriver c d fuel ->
  sendTx s start end_ nonce gasPrice = Some (tr, r) ->
  exists tr0 out rest,
    Sequencer.SubmitBatchTx c d fuel start end_ nonce gasPrice
      = Some (tr0, out) /\
    r = Sequencer.returned out /\
    tr = [LogAttempting start end_ nonce gasPrice;
          CallSubmitBatchTx start end_ nonce gasPrice] ++ tr0 ++ rest /\
    (In (LogSubmitted start end_ nonce gasPrice) tr <-> exists tx, r = Ok tx).
Proof.
  intros Hdrv H. unfold sendTx in H. rewrite Hdrv in H. simpl in H.
  destruct (Sequencer.SubmitBatchTx c d fuel start end_ nonce gasPrice)
    as [[tr0 out]|] eqn:Hsub; [|discriminate].
  pose proof (SubmitBatchTx_events _ _ _ _ _ _ Hsub) as Hev.
  assert (Hno : ~ In (LogSubmitted start end_ nonce gasPrice) tr0).
  { intros Hin. rewrite Forall_forall in Hev.
    apply list_elem_of_In in Hin. apply Hev in Hin. discriminate. }
  destruct (Sequencer.returned out) as [tx|e] eqn:Hret.
  - apply (inj Some) in H. injection H as <- <-.
    exists tr0, out, [LogSubmitted start end_ nonce gasPrice].
    split; [reflexivity|]. split; [auto|]. split; [reflexivity|].
    split; [eauto|]. intros _. simpl. rewrite in_app_iff. simpl. auto.
  - apply (inj Some) in H. injection H as <- <-.
    exists tr0, out, []. split; [reflexivity|]. split; [auto|].
    split; [rewrite app_nil_r; reflexivity|].
    split; [|intros [? ?]; discriminate].
    simpl. intros [?|[?|?]]; [discriminate|discriminate|contradiction].
Qed.

End ServiceExtras.

Section LoopExtras.

Import BatchSubmitter.

Context {Transaction Receipt : Type}.

(** The loop gets through a run of timer ticks exactly when every
    cycle ends, whether in an error or not, and what it did is then what
    the cycles did, one after the other. *)
Theorem eventLoop_runs_every_cycle
    (ticks : list (@Service Transaction Receipt)) (tr : list Event) :
  eventLoop ticks = Some tr <->
  exists trs,
    Forall2 (fun s t => eventLoop_cycle s = Some t) ticks trs /\
    tr = concat trs.
Proof.
  revert tr. induction ticks as [|s ticks IH]; intros tr; simpl.
  - split.
    + intros H. injection H as <-. exists []. split; [constructor|reflexivity].
    + intros (trs & Hf & ->). inversion Hf. reflexivity.
  - destruct (eventLoop_cycle s) as [t|] eqn:Hc.
    + destruct (eventLoop ticks) as [tr'|].
      * split.
        -- intros H. apply (inj Some) in H. subst tr.
           destruct (proj1 (IH tr') eq_refl) as (trs & Hf & ->).
           exists (t :: trs). split; [constructor; auto|reflexivity].
        -- intros (trs & Hf & ->).
           inversion Hf as [|? t' ? trs' Ht Hf']; subst.
           assert (t' = t) by congruence. subst t'.
           assert (Some tr' = Some (concat trs')) as Heq
             by (apply IH; eauto).
           injection Heq as ->. reflexivity.
      * split; [discriminate|].
        intros (trs & Hf & ->).
        inversion Hf as [|? t' ? trs' Ht Hf']; subst.
        assert (None = Some (concat trs')) by (apply IH; eauto).
        discriminate.
    + split; [discriminate|].
      intros (trs & Hf & ->). inversion Hf; subst. congruence.
Qed.

End LoopExtras.

Section BudgetExtras.

Import Sequencer Props SequencerFacts LoopFacts.

Context {Block BatchElement BatchParams Transaction : Type}.
Variable c : @Codec Block BatchElement BatchParams.
Variable d : @Driver Block Transaction.

Lemma sequencerBytes_nonneg (els : list BatchElement) :
  (forall el, 0 <= TxLenSize c + TxSize c el) ->
  0 <= sequencerBytes c els.
Proof.
  intros Hpos. induction els as [|el els IH]; simpl; [lia|].
  destruct (IsSequencerTx c el); [specialize (Hpos el)|]; lia.
Qed.

Lemma accumulate_within_budget : forall hs (els : list BatchElement) st,
  (forall el, 0 <= TxLenSize c + TxSize c el) ->
  MaxTxSize (cfg d) < 2 ^ 64 ->
  Forall2 (elementAt c d) hs els ->
  0 <= totalTxSize st ->
  totalTxSize st + sequencerBytes c els <= MaxTxSize (cfg d) ->
  accumulate c d hs st
    = (map CallBlockByNumber hs,
       Ok (mkAccum (batchElements st ++ els)
             (totalTxSize st + sequencerBytes c els))).
Proof.
  intros hs els st Hpos Hmax Hf. revert st.
  induction Hf as [|i el hs els (block & Hblock & ->) Hf IH];
    intros st Hst Hsum.
  - simpl. rewrite app_nil_r, Z.add_0_r. destruct st; reflexivity.
  - pose proof (sequencerBytes_nonneg els Hpos) as Hrest.
    simpl in *. rewrite Hblock.
    destruct (IsSequencerTx c (BatchElementFromBlock c block)) eqn:Hseq.
    + set (x := TxLenSize c + TxSize c (BatchElementFromBlock c block)) in *.
      assert (Hx : 0 <= x) by apply Hpos.
      assert (Hux : uint64 x = x)
        by (unfold uint64; apply Z.mod_small; lia).
      assert (Hu : uint64 (totalTxSize st + uint64 x) = totalTxSize st + x)
        by (rewrite Hux; unfold uint64; apply Z.mod_small; lia).
      rewrite Hu.
      replace (_ >? _) with false
        by (symmetry; rewrite Z.gtb_ltb; apply Z.ltb_ge; lia).
      rewrite IH by (simpl; lia). simpl.
      rewrite <- app_assoc. do 3 f_equal. lia.
    + rewrite IH by (simpl; lia). simpl.
      rewrite <- app_assoc. reflexivity.
Qed.

(** X15: when every block of the range is there and the length prefixes
    and sizes of its sequencer transactions add up to at most [MaxTxSize],
    the first loop takes the whole range and its estimate is that sum,
    with no wrap-around. *)
Theorem range_within_budget_is_taken_whole
    start end_ (els : list BatchElement) :
  (forall el, 0 <= TxLenSize c + TxSize c el) ->
  MaxTxSize (cfg d) < 2 ^ 64 ->
  Forall2 (elementAt c d) (heights start end_) els ->
  sequencerBytes c els <= MaxTxSize (cfg d) ->
  accumulate c d (heights start end_) (mkAccum [] 0)
    = (map CallBlockByNumber (heights start end_),
       Ok (mkAccum els (sequencerBytes c els))).
Proof.
  intros Hpos Hmax Hf Hsum.
  rewrite (accumulate_within_budget _ els (mkAccum [] 0) Hpos Hmax Hf);
    simpl; [reflexivity|lia|lia].
Qed.

Lemma iter_prune_shift (j n : nat) :
  Nat.iter j newBatchElementsLen (newBatchElementsLen n)
    = Nat.iter (S j) newBatchElementsLen n.
Proof.
  induction j as [|j IH]; [reflexivity|].
  change (Nat.iter (S j) newBatchElementsLen (newBatchElementsLen n))
    with (newBatchElementsLen
            (Nat.iter j newBatchElementsLen (newBatchElementsLen n))).
  rewrite IH. reflexivity.
Qed.

Lemma iter_prune_le_start (j n : nat) :
  (Nat.iter j newBatchElementsLen n <= n)%nat.
Proof.
  induction j as [|j IH]; [simpl; lia|].
  change (Nat.iter (S j) newBatchElementsLen n)
    with (newBatchElementsLen (Nat.iter j newBatchElementsLen n)).
  pose proof (newBatchElementsLen_le (Nat.iter j newBatchElementsLen n)). lia.
Qed.

Lemma shrink_first_fit fuel s n g : forall (elems : list BatchElement) tr r,
  shrink c d fuel s n g elems = Some (tr, Transact r) ->
  exists (j : nat) callData opts,
    batchCallData c d s
      (take (Nat.iter j newBatchElementsLen (length elems)) elems)
      = Ok callData /\
    Z.of_nat (length callData) <= MaxTxSize (cfg d) /\
    (forall i, (i < j)%nat ->
       oversize c d s
         (take (Nat.iter i newBatchElementsLen (length elems)) elems)) /\
    last tr = Some (CallRawTransact opts callData).
Proof.
  induction fuel as [|fuel IH]; intros elems tr r H; [discriminate|].
  rewrite shrink_S in H.
  destruct (GenSequencerBatchParams c s (BlockOffset (cfg d)) elems)
    as [params|e] eqn:Hgen; [|discriminate].
  destruct (Serialize c params) as [args|e] eqn:Hser; [|discriminate].
  cbv zeta in H. destruct (_ >? _) eqn:Hcmp.
  - apply emit_Some in H as (tr' & H & ->).
    apply IH in H as (j & callData & opts & Hcd & Hle & Hover & Hlast).
    pose proof (newBatchElementsLen_le (length elems)) as Hnew.
    assert (Hlen : length (take (newBatchElementsLen (length elems)) elems)
                   = newBatchElementsLen (length elems))
      by (rewrite length_take; lia).
    rewrite Hlen in Hcd, Hover.
    assert (Htake : forall i,
              take (Nat.iter i newBatchElementsLen
                      (newBatchElementsLen (length elems)))
                (take (newBatchElementsLen (length elems)) elems)
              = take (Nat.iter (S i) newBatchElementsLen (length elems))
                  elems).
    { intros i. rewrite take_take, <- iter_prune_shift. f_equal.
      pose proof (iter_prune_le_start i (newBatchElementsLen (length elems))).
      lia. }
    exists (S j), callData, opts. rewrite <- Htake.
    split; [exact Hcd|]. split; [exact Hle|]. split.
    + intros [|i] Hi.
      * simpl. rewrite firstn_all.
        exists (appendSequencerBatchID d ++ args). unfold batchCallData.
        rewrite Hgen, Hser. split; [reflexivity|].
        apply Z.gtb_gt in Hcmp. lia.
      * rewrite <- Htake. apply Hover. lia.
    + destruct tr' as [|ev tr']; [discriminate|]. exact Hlast.
  - rewrite Z.gtb_ltb in Hcmp. apply Z.ltb_ge in Hcmp.
    destruct (NewKeyedTransactorWithChainID d) as [opts0|e]; [|discriminate].
    injection H as <- <-.
    exists 0%nat, (appendSequencerBatchID d ++ args),
      (mkOpts (From opts0) (Some n) (Some g)).
    simpl. rewrite firstn_all. unfold batchCallData. rewrite Hgen, Hser.
    split; [reflexivity|]. split; [exact Hcmp|]. split; [lia|reflexivity].
Qed.

(** X16: the batch that is published is the first of the pruning sequence
    that fits: with [n] elements accumulated, it holds the leading
    [n * 9 / 10 * 9 / 10 ...] of them after some number [j] of prunings,
    and each of the [j] larger batches tried before it was over
    [MaxTxSize]. *)
Theorem published_batch_is_first_fit_of_pruning_sequence
    fuel start end_ nonce gasPrice tr r :
  SubmitBatchTx c d fuel start end_ nonce gasPrice = Some (tr, Transact r) ->
  exists tr1 st (j : nat) callData opts,
    accumulate c d (heights start end_) (mkAccum [] 0) = (tr1, Ok st) /\
    let size i :=
      Nat.iter i newBatchElementsLen (length (batchElements st)) in
    batchCallData c d (BigInt_Uint64 start)
      (take (size j) (batchElements st)) = Ok callData /\
    Z.of_nat (length callData) <= MaxTxSize (cfg d) /\
    (forall i, (i < j)%nat ->
       oversize c d (BigInt_Uint64 start) (take (size i) (batchElements st))) /\
    last tr = Some (CallRawTransact opts callData).
Proof.
  intros H. apply SubmitBatchTx_returns in H
    as [(e & _ & Habs)|(tr1 & tr2 & st & Hacc & Hshr & ->)]; [discriminate|].
  apply shrink_first_fit in Hshr
    as (j & callData & opts & Hcd & Hle & Hover & Hlast).
  exists tr1, st, j, callData, opts. split; [exact Hacc|]. cbv zeta.
  split; [exact Hcd|]. split; [exact Hle|]. split; [exact Hover|].
  rewrite last_app, Hlast. reflexivity.
Qed.

End BudgetExtras.

(** ** Runs of the further properties on the fixtures *)

Section ExtraRuns.

Import Sequencer Props SequencerFacts BatchSubmitter Fixtures FixtureFacts.

Lemma empty_batch_fits_under_23 :
  ~ oversize codec (driver 0 23 blocks3) (BigInt_Uint64 0) [].
Proof.
  intros (callData & Hcd & Hgt). vm_compute in Hcd. injection Hcd as <-.
  vm_compute in Hgt. discriminate.
Defined.

Lemma heights_0_3_are_blocks3 :
  Forall2 (elementAt codec (driver 0 100 blocks3)) (heights 0 3) blocks3.
Proof.
  change (heights 0 3) with [0; 1; 2].
  repeat constructor; eexists; split; reflexivity.
Defined.

Lemma enqueued5_has_no_sequencer_tx (i : Z) :
  0 <= i < 5 ->
  exists el, elementAt codec (driver 0 1 enqueued5) i el /\
             IsSequencerTx codec el = false.
Proof.
  intros Hi.
  assert (Hcases : i = 0 \/ i = 1 \/ i = 2 \/ i = 3 \/ i = 4) by lia.
  destruct Hcases as [->|[->|[->|[->| ->]]]];
    (exists None; split; [eexists; split; reflexivity|reflexivity]).
Defined.

Lemma SubmitBatchTx_returns_when_empty_batch_fits_witness :
  ~ oversize codec (driver 0 23 blocks3) (BigInt_Uint64 0) [] /\
  (Z.to_nat (3 - 0) < 4)%nat /\
  exists tr out,
    Sequencer.SubmitBatchTx codec (driver 0 23 blocks3) 4 0 3 7 1
      = Some (tr, out).
Proof.
  assert (Hfuel : (Z.to_nat (3 - 0) < 4)%nat) by (simpl; lia).
  split; [exact empty_batch_fits_under_23|]. split; [exact Hfuel|].
  exact (SubmitBatchTx_returns_when_empty_batch_fits
           codec (driver 0 23 blocks3) 4 0 3 7 1
           empty_batch_fits_under_23 Hfuel).
Defined.

Lemma empty_range_fetches_no_block_witness :
  3 <= 3 /\
  Sequencer.SubmitBatchTx codec (driver 0 23 blocks3) 2 3 3 7 1
    = shrink codec (driver 0 23 blocks3) 2 (BigInt_Uint64 3) 7 1 [].
Proof.
  assert (H : 3 <= 3) by lia. split; [exact H|].
  exact (empty_range_fetches_no_block
           codec (driver 0 23 blocks3) 2 3 3 7 1 H).
Defined.

Lemma SubmitBatchTx_stops_at_first_failed_fetch_witness :
  exists tr e,
    Sequencer.SubmitBatchTx codec (driver 0 100 blocks3) 5 0 5 7 1
      = Some (tr, Abort AtBlockByNumber e) /\
    exists m : nat,
      0 + Z.of_nat m < 5 /\
      BlockByNumber (driver 0 100 blocks3) (0 + Z.of_nat m) = Err e /\
      tr = map CallBlockByNumber (seqZ 0 (Z.of_nat (S m))).
Proof.
  eexists. eexists. split; [lazy; reflexivity|].
  destruct (SubmitBatchTx_stops_at_first_failed_fetch
              codec (driver 0 100 blocks3) 5 0 5 7 1 _ _ eq_refl)
    as (m & Hm & He & Htr & _).
  exists m. split; [exact Hm|]. split; [exact He|exact Htr].
Defined.

Lemma fitting_batch_is_published_unpruned_witness :
  exists tr st callData opts0,
    accumulate codec (driver 0 100 blocks3) (heights 0 3) (mkAccum [] 0)
      = (tr, Ok st) /\
    batchCallData codec (driver 0 100 blocks3) (BigInt_Uint64 0)
      (batchElements st) = Ok callData /\
    Z.of_nat (length callData) <= 100 /\
    NewKeyedTransactorWithChainID (driver 0 100 blocks3) = Ok opts0 /\
    Sequencer.SubmitBatchTx codec (driver 0 100 blocks3) 1 0 3 7 1
      = Some (tr ++ [LogConstructed (length (batchElements st))
                       (length callData);
                     CallRawTransact (mkOpts (From opts0) (Some 7) (Some 1))
                       callData],
              Transact
                (RawTransact (driver 0 100 blocks3)
                   (mkOpts (From opts0) (Some 7) (Some 1)) callData)).
Proof.
  eexists. eexists. eexists. eexists.
  split; [lazy; reflexivity|]. split; [lazy; reflexivity|].
  assert (Hle : Z.of_nat 25 <= 100) by (simpl; lia).
  split; [exact Hle|]. split; [reflexivity|].
  exact (fitting_batch_is_published_unpruned
           codec (driver 0 100 blocks3) 0 0 3 7 1 _ _ _ _
           eq_refl eq_refl Hle eq_refl).
Defined.

Lemma estimate_never_exceeds_MaxTxSize_witness :
  exists tr st,
    0 <= 100 /\
    accumulate codec (driver 0 100 blocks3) (heights 0 3) (mkAccum [] 0)
      = (tr, Ok st) /\
    0 <= totalTxSize st <= 100.
Proof.
  eexists. eexists. assert (H : 0 <= 100) by lia.
  split; [exact H|]. split; [lazy; reflexivity|].
  exact (estimate_never_exceeds_MaxTxSize
           codec (driver 0 100 blocks3) 0 3 _ _ H eq_refl).
Defined.

Lemma oversize_first_transaction_leaves_empty_batch_witness :
  0 < 3 /\
  BlockByNumber (driver 0 3 blocks3) 0 = Ok (Some [x01; x02]) /\
  IsSequencerTx codec (BatchElementFromBlock codec (Some [x01; x02])) = true /\
  Sequencer.SubmitBatchTx codec (driver 0 3 blocks3) 2 0 3 7 1
    = emit [CallBlockByNumber 0]
        (shrink codec (driver 0 3 blocks3) 2 (BigInt_Uint64 0) 7 1 []).
Proof.
  assert (H : 0 < 3) by lia.
  split; [exact H|]. split; [reflexivity|]. split; [reflexivity|].
  exact (oversize_first_transaction_leaves_empty_batch
           codec (driver 0 3 blocks3) 2 0 3 7 1 (Some [x01; x02])
           H eq_refl eq_refl eq_refl).
Defined.

Lemma enqueued_only_range_is_taken_whole_witness :
  exists kept : list Fixtures.BatchElement,
    accumulate codec (driver 0 1 enqueued5) (heights 0 5) (mkAccum [] 0)
      = (map CallBlockByNumber (heights 0 5), Ok (mkAccum kept 0)) /\
    length kept = Z.to_nat (5 - 0).
Proof.
  destruct (enqueued_only_range_is_taken_whole
              codec (driver 0 1 enqueued5) 0 5 enqueued5_has_no_sequencer_tx)
    as (kept & Hacc & Hlen & _).
  exists kept. split; [exact Hacc|exact Hlen].
Defined.

Lemma published_transaction_carries_callers_nonce_and_gasPrice_witness :
  exists tr out opts callData,
    Sequencer.SubmitBatchTx codec (driver 0 23 blocks3) 5 0 3 7 1
      = Some (tr, out) /\
    In (CallRawTransact opts callData) tr /\
    Nonce opts = Some 7 /\ GasPrice opts = Some 1.
Proof.
  eexists. eexists. eexists. eexists.
  split; [lazy; reflexivity|].
  assert (Hin : In (CallRawTransact (mkOpts 1 (Some 7) (Some 1))
                      [xd0; xf8; x93; x44; x00; x00; x00; x00; x00; x00;
                       x00; x00; x00; x00; x00; x00; x00; x00; x01; x02;
                       x00])
                  [CallBlockByNumber 0; CallBlockByNumber 1;
                   CallBlockByNumber 2; LogPruned 3 2; LogConstructed 2 21;
                   CallRawTransact (mkOpts 1 (Some 7) (Some 1))
                     [xd0; xf8; x93; x44; x00; x00; x00; x00; x00; x00;
                      x00; x00; x00; x00; x00; x00; x00; x00; x01; x02;
                      x00]])
    by (simpl; do 5 right; left; reflexivity).
  split; [exact Hin|].
  destruct (published_transaction_carries_callers_nonce_and_gasPrice
              codec (driver 0 23 blocks3) 5 0 3 7 1 _ _ _ _ eq_refl Hin)
    as (Hn & Hg & _).
  split; [exact Hn|exact Hg].
Defined.

Lemma repricing_rebuilds_the_same_call_data_witness :
  exists tr r,
    Sequencer.SubmitBatchTx codec (driver 0 23 blocks3) 5 0 3 7 1
      = Some (tr, Transact r) /\
    exists tr0 opts opts' callData,
      tr = tr0 ++ [CallRawTransact opts callData] /\
      Sequencer.SubmitBatchTx codec (driver 0 23 blocks3) 5 0 3 8 2
        = Some (tr0 ++ [CallRawTransact opts' callData],
                Transact (RawTransact (driver 0 23 blocks3) opts' callData)).
Proof.
  eexists. eexists. split; [lazy; reflexivity|].
  destruct (repricing_rebuilds_the_same_call_data
              codec (driver 0 23 blocks3) 5 0 3 7 1 8 2 _ _ eq_refl)
    as (tr0 & opts & opts' & callData & Htr & Hsub & _).
  exists tr0, opts, opts', callData. split; [exact Htr|exact Hsub].
Defined.

Lemma range_within_budget_is_taken_whole_witness :
  Forall2 (elementAt codec (driver 0 100 blocks3)) (heights 0 3) blocks3 /\
  sequencerBytes codec blocks3 <= 100 /\
  accumulate codec (driver 0 100 blocks3) (heights 0 3) (mkAccum [] 0)
    = (map CallBlockByNumber (heights 0 3),
       Ok (mkAccum blocks3 (sequencerBytes codec blocks3))).
Proof.
  assert (Hmax : MaxTxSize (cfg (driver 0 100 blocks3)) < 2 ^ 64)
    by reflexivity.
  assert (Hsum : sequencerBytes codec blocks3 <= 100)
    by (vm_compute; discriminate).
  split; [exact heights_0_3_are_blocks3|]. split; [exact Hsum|].
  exact (range_within_budget_is_taken_whole
           codec (driver 0 100 blocks3) 0 3 blocks3
           codec_sizes_nonneg Hmax heights_0_3_are_blocks3 Hsum).
Defined.

Lemma published_batch_is_first_fit_of_pruning_sequence_witness :
  exists tr r,
    Sequencer.SubmitBatchTx codec (driver 0 23 blocks3) 5 0 3 7 1
      = Some (tr, Transact r) /\
    exists st (j : nat) callData,
      batchCallData codec (driver 0 23 blocks3) (BigInt_Uint64 0)
        (take (Nat.iter j newBatchElementsLen (length (batchElements st)))
           (batchElements st)) = Ok callData /\
      Z.of_nat (length callData) <= 23.
Proof.
  eexists. eexists. split; [lazy; reflexivity|].
  destruct (published_batch_is_first_fit_of_pruning_sequence
              codec (driver 0 23 blocks3) 5 0 3 7 1 _ _ eq_refl)
    as (tr1 & st & j & callData & opts & _ & Hcd & Hle & _).
  exists st, j, callData. split; [exact Hcd|exact Hle].
Defined.

Lemma Send_is_reached_iff_range_and_nonce_resolve_witness :
  exists tr,
    eventLoop_cycle (service (Ok 10) (driver 0 23 blocks3) 5) = Some tr /\
    (In CallSend tr <->
     exists balance start end_ nonce,
       BalanceAt (service (Ok 10) (driver 0 23 blocks3) 5) = Ok balance /\
       snd (Sequencer.GetBatchBlockRange (driver 0 23 blocks3))
         = Ok (start, end_) /\
       start <> end_ /\
       NonceAt (service (Ok 10) (driver 0 23 blocks3) 5) = Ok nonce).
Proof.
  eexists. split; [lazy; reflexivity|].
  exact (Send_is_reached_iff_range_and_nonce_resolve
           codec (driver 0 23 blocks3) 5
           (service (Ok 10) (driver 0 23 blocks3) 5) _ eq_refl eq_refl).
Defined.


Lemma sendTx_logs_submitted_iff_published_witness :
  exists tr r,
    sendTx (service (Ok 10) (driver 0 23 blocks3) 5) 0 3 7 1 = Some (tr, r) /\
    (In (LogSubmitted 0 3 7 1) tr <-> exists tx, r = Ok tx).
Proof.
  eexists. eexists. split; [lazy; reflexivity|].
  destruct (sendTx_logs_submitted_iff_published
              codec (driver 0 23 blocks3) 5
              (service (Ok 10) (driver 0 23 blocks3) 5)
              0 3 7 1 _ _ eq_refl eq_refl)
    as (tr0 & out & rest & _ & _ & _ & Hiff).
  exact Hiff.
Defined.

End ExtraRuns.
